(** * ELD daily-log segmentation: [processTripData] of
    [frontend/src/components/ELDLogs.js]

    A shallow embedding of the function that turns an ordered list of
    planned stops and a trip start into per-day duty-status segments and
    hour summaries, together with the reconciliation done by
    [DailySummaryTable].

    Modelling conventions.
    - A JavaScript number is an exact rational ([Q]).  Every hour value
      that reaches the gap filler, the merger and the summary is a whole
      number of at most 25, on which binary64 arithmetic is exact.
    - A [Date] is its local wall-clock time in milliseconds ([Z]) counted
      from local 1970-01-01T00:00, in a zone without clock changes, so a
      calendar day lasts 24 hours.
    - The date-fns functions are not part of the repository; they are
      written here after their documented behaviour (date-fns 3/4).
    - The object literal [ELD_STATUS_MAP] is the finite table of its own
      keys; a lookup in it also finds the members every object inherits
      ([Object_prototype_members]). *)

From Stdlib Require Import ZArith QArith Qround Qabs List Bool String Ascii Lia Lqa.
From Stdlib Require Import Sorting.Sorted.
Import ListNotations.

Local Open Scope Z_scope.

(** ** Data model *)

(** The four row labels of [dutyStatuses] / [dutyStatusMap]:
    'Off Duty', 'Sleeper Birth', 'Driving', 'On Duty (Not Driving)'. *)
Inductive DutyStatus : Type :=
  | OffDuty
  | SleeperBirth
  | Driving
  | OnDutyNotDriving.

Definition row_eqb (a b : DutyStatus) : bool :=
  match a, b with
  | OffDuty, OffDuty => true
  | SleeperBirth, SleeperBirth => true
  | Driving, Driving => true
  | OnDutyNotDriving, OnDutyNotDriving => true
  | _, _ => false
  end.

(** What [ELD_STATUS_MAP[activityType] || 'Off Duty'] can hold: one of the
    row labels or, when [activityType] names a member that every object
    inherits from [Object.prototype], that member (a function or an
    object, never a string). *)
Inductive StatusValue : Type :=
  | Row (label : DutyStatus)
  | Member (name : string).

Coercion Row : DutyStatus >-> StatusValue.

(** [a === b] on two such values; two inherited members are the same
    value exactly when they go by the same name. *)
Definition status_eqb (a b : StatusValue) : bool :=
  match a, b with
  | Row x, Row y => row_eqb x y
  | Member n, Member m => String.eqb n m
  | _, _ => false
  end.

(** [dutyStatusMap]: the chart row of a status. *)
Definition dutyStatusMap (s : DutyStatus) : Z :=
  match s with
  | OffDuty => 0
  | SleeperBirth => 1
  | Driving => 2
  | OnDutyNotDriving => 3
  end.

(** A planned stop, reduced to the two fields [processTripData] reads. *)
Record Stop : Type := mkStop {
  type : string;
  duration_hours : Q
}.

(** [{ status, startHour, endHour }] *)
Record Segment : Type := mkSegment {
  status : StatusValue;
  startHour : Q;
  endHour : Q
}.

(** [{ 'Off Duty': _, 'Sleeper Birth': _, 'Driving': _,
       'On Duty (Not Driving)': _ }] *)
Record Summary : Type := mkSummary {
  sumOffDuty : Q;
  sumSleeperBirth : Q;
  sumDriving : Q;
  sumOnDutyNotDriving : Q
}.

(** [{ segments, summary }] *)
Record DayLog : Type := mkDayLog {
  segments : list Segment;
  summary : Summary
}.

(** A calendar date: year, month (1..12), day of month (1..31). *)
Record CalendarDate : Type := mkDate {
  dateYear : Z;
  dateMonth : Z;
  dateDay : Z
}.

Definition date_eqb (a b : CalendarDate) : bool :=
  (dateYear a =? dateYear b) && (dateMonth a =? dateMonth b)
  && (dateDay a =? dateDay b).

(** ** The status table *)

Open Scope string_scope.

(** [ELD_STATUS_MAP] *)
Definition ELD_STATUS_MAP : list (string * DutyStatus) :=
  [ ("Driving (to Origin)", Driving);
    ("Driving (to Destination)", Driving);
    ("Driving", Driving);
    ("Daily Rest", OffDuty);
    ("Pickup Stop", OnDutyNotDriving);
    ("Refueling Stop", OnDutyNotDriving);
    ("Drop-off Stop", OnDutyNotDriving) ].

Close Scope string_scope.

Fixpoint table_get (key : string) (table : list (string * DutyStatus))
  : option DutyStatus :=
  match table with
  | [] => None
  | (k, v) :: rest => if String.eqb k key then Some v else table_get key rest
  end.

(** The names of the members of [Object.prototype].  An object literal
    such as [ELD_STATUS_MAP] answers a lookup under one of these names
    with the inherited member, which is truthy. *)
Definition Object_prototype_members : list string :=
  [ "constructor"%string; "__defineGetter__"%string;
    "__defineSetter__"%string; "hasOwnProperty"%string;
    "__lookupGetter__"%string; "__lookupSetter__"%string;
    "isPrototypeOf"%string; "propertyIsEnumerable"%string;
    "toString"%string; "valueOf"%string; "__proto__"%string;
    "toLocaleString"%string ].

Definition inherited (key : string) : bool :=
  existsb (String.eqb key) Object_prototype_members.

(** [ELD_STATUS_MAP[activityType] || 'Off Duty']: the table's own value,
    else the inherited member, else the default. *)
Definition eldStatusOf (activityType : string) : StatusValue :=
  match table_get activityType ELD_STATUS_MAP with
  | Some s => Row s
  | None =>
      if inherited activityType then Member activityType else Row OffDuty
  end.

(** ** Time: the date-fns functions used by the expander *)

Definition millisecondsInHour : Z := 3600000.
Definition millisecondsInDay : Z := 86400000.

(** Truncation toward zero, as done by the [Date] constructor on a time
    value and by [Math.trunc]. *)
Definition Qtrunc (q : Q) : Z :=
  if Qle_bool 0 q then Qfloor q else Qceiling q.

(** [addHours(date, amount)]: the time value plus
    [amount * millisecondsInHour], clipped to whole milliseconds.
    (date-fns 2 cuts [amount] to a whole number first; the two agree on
    whole amounts, and both satisfy [addHours_ge] and [addHours_whole]
    below, the only facts the general results use.) *)
Definition addHours (date : Z) (amount : Q) : Z :=
  Qtrunc (inject_Z date + amount * inject_Z millisecondsInHour)%Q.

(** [startOfDay(date)]: local midnight of the day of [date]. *)
Definition startOfDay (date : Z) : Z :=
  millisecondsInDay * (date / millisecondsInDay).

(** [addDays(date, amount)] *)
Definition addDays (date : Z) (amount : Z) : Z :=
  date + amount * millisecondsInDay.

(** [isBefore(date, dateToCompare)] *)
Definition isBefore (date dateToCompare : Z) : bool := date <? dateToCompare.

(** [min([a, b])]: the earlier of two dates. *)
Definition minDate (a b : Z) : Z := Z.min a b.

(** [differenceInHours(later, earlier)]: the difference in milliseconds
    divided by [millisecondsInHour], rounded with the default method
    [Math.trunc]: a whole number of hours. *)
Definition differenceInHours (later earlier : Z) : Q :=
  inject_Z (Z.quot (later - earlier) millisecondsInHour).

(** Days since 1970-01-01 to a calendar date of the proleptic Gregorian
    calendar. *)
Definition civil_from_days (z : Z) : CalendarDate :=
  let z' := z + 719468 in
  let era := z' / 146097 in
  let doe := z' mod 146097 in
  let yoe := (doe - doe / 1460 + doe / 36524 - doe / 146096) / 365 in
  let doy := doe - (365 * yoe + yoe / 4 - yoe / 100) in
  let mp := (5 * doy + 2) / 153 in
  let d := doy - (153 * mp + 2) / 5 + 1 in
  let m := if mp <? 10 then mp + 3 else mp - 9 in
  mkDate (yoe + era * 400 + (if m <=? 2 then 1 else 0)) m d.

(** The inverse direction: a calendar date to days since 1970-01-01. *)
Definition days_from_civil (c : CalendarDate) : Z :=
  let m := dateMonth c in
  let y := dateYear c - (if m <=? 2 then 1 else 0) in
  let era := y / 400 in
  let yoe := y mod 400 in
  let doy := (153 * (if 2 <? m then m - 3 else m + 9) + 2) / 5
             + dateDay c - 1 in
  let doe := yoe * 365 + yoe / 4 - yoe / 100 + doy in
  era * 146097 + doe - 719468.

(** [format(date, 'yyyy-MM-dd')] names the calendar day of [date]; the
    model keeps the date itself as the key of [dailyData]. *)
Definition format (date : Z) : CalendarDate :=
  civil_from_days (date / millisecondsInDay).

(** The local date-time [y-m-dThh:mm] as a time value. *)
Definition localDateTime (y m d hh mm : Z) : Z :=
  days_from_civil (mkDate y m d) * millisecondsInDay
  + hh * millisecondsInHour + mm * 60000.

(** ** Number helpers *)

Local Open Scope Q_scope.

Definition Qlt_bool (a b : Q) : bool := negb (Qle_bool b a).

(** [Math.max], [Math.min] on two arguments. *)
Definition Math_max (a b : Q) : Q := if Qlt_bool a b then b else a.
Definition Math_min (a b : Q) : Q := if Qlt_bool b a then b else a.

(** [parseFloat(x.toFixed(2))]: the nearest multiple of 1/100, a tie
    going away from zero. *)
Definition toFixed2 (x : Q) : Q :=
  if Qlt_bool x 0
  then Qred (- (Qfloor ((- x) * 100 + (1 # 2)) # 100))
  else Qred (Qfloor (x * 100 + (1 # 2)) # 100).

(** ** Timeline expander (lines 36-80) *)

Definition DailyData : Type := list (CalendarDate * DayLog).

Definition emptySummary : Summary := mkSummary 0 0 0 0.

(** [dailyData[key]] *)
Fixpoint dailyData_get (key : CalendarDate) (dailyData : DailyData)
  : option DayLog :=
  match dailyData with
  | [] => None
  | (k, log) :: rest =>
      if date_eqb k key then Some log else dailyData_get key rest
  end.

(** [if (!dailyData[key]) dailyData[key] = { segments: [], summary: ... }]:
    a new key goes last, as property insertion order has it. *)
Definition ensureDay (key : CalendarDate) (dailyData : DailyData) : DailyData :=
  match dailyData_get key dailyData with
  | Some _ => dailyData
  | None => dailyData ++ [(key, mkDayLog [] emptySummary)]
  end.

(** [dailyData[key].segments.push(seg)] *)
Fixpoint pushSegment (key : CalendarDate) (seg : Segment)
  (dailyData : DailyData) : DailyData :=
  match dailyData with
  | [] => []
  | (k, log) :: rest =>
      if date_eqb k key
      then (k, mkDayLog (segments log ++ [seg]) (summary log)) :: rest
      else (k, log) :: pushSegment key seg rest
  end.

(** The [while (isBefore(tempCurrentTime, activityEndTime))] loop of one
    stop.  [fuel] bounds the number of iterations. *)
Fixpoint splitAcrossDays (fuel : nat) (eldStatus : StatusValue)
  (tempCurrentTime activityEndTime : Z) (dailyData : DailyData) : DailyData :=
  match fuel with
  | O => dailyData
  | S fuel' =>
      if isBefore tempCurrentTime activityEndTime then
        let currentDayStart := startOfDay tempCurrentTime in
        let nextDayStart := addDays currentDayStart 1 in
        let dayEndForSegment := minDate activityEndTime nextDayStart in
        let currentDayFormatted := format currentDayStart in
        let dailyData1 := ensureDay currentDayFormatted dailyData in
        let segmentStartHour :=
          differenceInHours tempCurrentTime currentDayStart in
        let segmentEndHour :=
          differenceInHours dayEndForSegment currentDayStart in
        let segmentDuration := segmentEndHour - segmentStartHour in
        let dailyData2 :=
          if Qlt_bool 0 segmentDuration
          then pushSegment currentDayFormatted
                 (mkSegment eldStatus segmentStartHour segmentEndHour)
                 dailyData1
          else dailyData1 in
        splitAcrossDays fuel' eldStatus nextDayStart activityEndTime dailyData2
      else dailyData
  end.

(** One more than the number of midnights between the two instants: the
    loop above runs at most that often. *)
Definition daysTouched (activityStartTime activityEndTime : Z) : nat :=
  Z.to_nat (activityEndTime / millisecondsInDay
            - activityStartTime / millisecondsInDay + 1).

(** The body of [plannedStops.forEach]; the state is [dailyData] and
    [currentAbsoluteTime]. *)
Definition expandStop (st : DailyData * Z) (stop : Stop) : DailyData * Z :=
  let (dailyData, currentAbsoluteTime) := st in
  let activityType := type stop in
  let durationHours := duration_hours stop in
  let eldStatus := eldStatusOf activityType in
  let activityStartTime := currentAbsoluteTime in
  let activityEndTime := addHours currentAbsoluteTime durationHours in
  (splitAcrossDays (daysTouched activityStartTime activityEndTime) eldStatus
     activityStartTime activityEndTime dailyData,
   activityEndTime).

Definition expandTrip (plannedStops : list Stop) (startDate : Z)
  : DailyData * Z :=
  fold_left expandStop plannedStops ([], startDate).

(** ** Per-day post-processing (lines 83-142) *)

(** [segments.sort((a, b) => a.startHour - b.startHour)]: a stable sort. *)
Fixpoint insertByStart (a : Segment) (l : list Segment) : list Segment :=
  match l with
  | [] => [a]
  | b :: l' =>
      if Qle_bool (startHour a - startHour b) 0
      then a :: l
      else b :: insertByStart a l'
  end.

Definition sortByStart (l : list Segment) : list Segment :=
  fold_right insertByStart [] l.

(** The body of the gap-filling [forEach]; the state is [filledSegments]
    and [currentHourPointer]. *)
Definition fillStep (st : list Segment * Q) (segment : Segment)
  : list Segment * Q :=
  let (filledSegments, currentHourPointer) := st in
  let actualSegmentStart := Math_max currentHourPointer (startHour segment) in
  let filled1 :=
    if Qlt_bool currentHourPointer actualSegmentStart
    then filledSegments
         ++ [mkSegment OffDuty currentHourPointer actualSegmentStart]
    else filledSegments in
  (filled1 ++ [mkSegment (status segment) actualSegmentStart
                 (Math_min 24 (endHour segment))],
   Math_min 24 (endHour segment)).

Definition fillGaps (segs : list Segment) : list Segment :=
  let (filledSegments, currentHourPointer) :=
    fold_left fillStep segs ([], 0) in
  if Qlt_bool currentHourPointer 24
  then filledSegments ++ [mkSegment OffDuty currentHourPointer 24]
  else filledSegments.

(** The merging [for] loop: [currentMerged], the segments still to visit,
    and [mergedSegments]. *)
Fixpoint mergeLoop (currentMerged : Segment) (rest : list Segment)
  (mergedSegments : list Segment) : list Segment :=
  match rest with
  | [] => mergedSegments ++ [currentMerged]
  | nextSegment :: rest' =>
      if status_eqb (status currentMerged) (status nextSegment)
         && Qlt_bool (Qabs (endHour currentMerged - startHour nextSegment))
              (1 # 1000)
      then mergeLoop (mkSegment (status currentMerged)
                        (startHour currentMerged) (endHour nextSegment))
             rest' mergedSegments
      else mergeLoop nextSegment rest' (mergedSegments ++ [currentMerged])
  end.

Definition mergeSegments (filledSegments : list Segment) : list Segment :=
  match filledSegments with
  | [] => []
  | first :: rest => mergeLoop first rest []
  end.

(** [summary[seg.status] += seg.endHour - seg.startHour].  Under an
    inherited member the sum goes to a property of its own, named after
    the member, which holds NaN; the four values stay as they are. *)
Definition addHoursTo (s : Summary) (seg : Segment) : Summary :=
  let h := endHour seg - startHour seg in
  match status seg with
  | Member _ => s
  | Row OffDuty =>
      mkSummary (sumOffDuty s + h) (sumSleeperBirth s) (sumDriving s)
        (sumOnDutyNotDriving s)
  | Row SleeperBirth =>
      mkSummary (sumOffDuty s) (sumSleeperBirth s + h) (sumDriving s)
        (sumOnDutyNotDriving s)
  | Row Driving =>
      mkSummary (sumOffDuty s) (sumSleeperBirth s) (sumDriving s + h)
        (sumOnDutyNotDriving s)
  | Row OnDutyNotDriving =>
      mkSummary (sumOffDuty s) (sumSleeperBirth s) (sumDriving s)
        (sumOnDutyNotDriving s + h)
  end.

Definition roundSummary (s : Summary) : Summary :=
  mkSummary (toFixed2 (sumOffDuty s)) (toFixed2 (sumSleeperBirth s))
    (toFixed2 (sumDriving s)) (toFixed2 (sumOnDutyNotDriving s)).

Definition summarize (mergedSegments : list Segment) : Summary :=
  roundSummary (fold_left addHoursTo mergedSegments emptySummary).

(** The body of [for (const dateKey in dailyData)]. *)
Definition postProcessDay (log : DayLog) : DayLog :=
  let segs := sortByStart (segments log) in
  let filledSegments := fillGaps segs in
  let mergedSegments := mergeSegments filledSegments in
  mkDayLog mergedSegments (summarize mergedSegments).

Definition postProcess (dailyData : DailyData) : DailyData :=
  map (fun entry => (fst entry, postProcessDay (snd entry))) dailyData.

Definition processTripData (plannedStops : list Stop) (startDate : Z)
  : DailyData :=
  postProcess (fst (expandTrip plannedStops startDate)).

(** ** [DailySummaryTable]: the three-row view and its reconciliation *)

Record MergedSummary : Type := mkMergedSummary {
  rowOffDuty : Q;
  rowDriving : Q;
  rowOnDutyNotDriving : Q
}.

Definition rowsTotal (m : MergedSummary) : Q :=
  0 + rowOffDuty m + rowDriving m + rowOnDutyNotDriving m.

Definition mergedSummaryOf (summaryData : Summary) : MergedSummary :=
  let mergedSummary :=
    mkMergedSummary (sumOffDuty summaryData + sumSleeperBirth summaryData)
      (sumDriving summaryData) (sumOnDutyNotDriving summaryData) in
  let total := rowsTotal mergedSummary in
  if Qlt_bool (1 # 100) (Qabs (total - 24))
  then mkMergedSummary
         (toFixed2 (rowOffDuty mergedSummary + (24 - total)))
         (rowDriving mergedSummary) (rowOnDutyNotDriving mergedSummary)
  else mergedSummary.

(** ** Predicates used by the statements *)

(** Consecutive segments of [l] link up exactly, from [p] to [q], and
    every segment satisfies [R] on its two ends. *)
Fixpoint chain (R : Q -> Q -> Prop) (p : Q) (l : list Segment) (q : Q)
  : Prop :=
  match l with
  | [] => p = q
  | s :: l' =>
      startHour s = p /\ R (startHour s) (endHour s)
      /\ chain R (endHour s) l' q
  end.

(** Both ends are whole numbers and the first is below the second. *)
Definition wholeLt (a b : Q) : Prop :=
  exists x y : Z, a = inject_Z x /\ b = inject_Z y /\ (x < y)%Z.

Definition anyEnds (a b : Q) : Prop := True.

(** The test of the merging loop on two neighbours. *)
Definition mergeable (a b : Segment) : bool :=
  status_eqb (status a) (status b)
  && Qlt_bool (Qabs (endHour a - startHour b)) (1 # 1000).

(** No two neighbours of [l] pass the merge test. *)
Fixpoint separated (l : list Segment) : Prop :=
  match l with
  | a :: (b :: _) as tl => mergeable a b = false /\ separated tl
  | _ => True
  end.

(** Neighbours carry different statuses. *)
Fixpoint alternating (l : list Segment) : Prop :=
  match l with
  | a :: (b :: _) as tl => status a <> status b /\ alternating tl
  | _ => True
  end.

(** Hour [h] lies in the half-open span of [s]. *)
Definition covers (s : Segment) (h : Q) : Prop :=
  startHour s <= h /\ h < endHour s.

(** Segments as the expander leaves them in one day: whole hours,
    [lo <= start < end <= next start ... <= hi]. *)
Fixpoint raw_ok (lo : Z) (segs : list Segment) (hi : Z) : Prop :=
  match segs with
  | [] => (lo <= hi)%Z
  | s :: l =>
      exists a e : Z,
        startHour s = inject_Z a /\ endHour s = inject_Z e
        /\ (lo <= a < e)%Z /\ raw_ok e l hi
  end.

(** The whole hour of instant [t] on the axis of day number [n], kept
    within 0..24. *)
Definition hourMark (n t : Z) : Z :=
  Z.max 0 (Z.min 24 ((t - n * millisecondsInDay) / millisecondsInHour)).

Definition day_ok (t : Z) (entry : CalendarDate * DayLog) : Prop :=
  exists n : Z,
    fst entry = civil_from_days n
    /\ raw_ok 0 (segments (snd entry)) (hourMark n t).

Definition segmentHours (s : Segment) : Q := endHour s - startHour s.

Definition sumQ (l : list Q) : Q := fold_right Qplus 0 l.

Definition dayHours (log : DayLog) : Q :=
  sumQ (map segmentHours (segments log)).

(** Sum over all days of the segment durations. *)
Definition totalHours (dailyData : DailyData) : Q :=
  sumQ (map (fun entry => dayHours (snd entry)) dailyData).

Definition summaryTotal (s : Summary) : Q :=
  sumOffDuty s + sumSleeperBirth s + sumDriving s + sumOnDutyNotDriving s.

Definition integral (q : Q) : Prop := exists z : Z, q == inject_Z z.

Definition integralSummary (s : Summary) : Prop :=
  integral (sumOffDuty s) /\ integral (sumSleeperBirth s)
  /\ integral (sumDriving s) /\ integral (sumOnDutyNotDriving s).

(** Hours of the segments of [l] that carry status [st]. *)
Definition statusHours (st : StatusValue) (l : list Segment) : Q :=
  sumQ (map segmentHours
          (filter (fun s => status_eqb (status s) st) l)).

(** The input domain: a duration is not negative. *)
Definition nonNegative (stop : Stop) : Prop := 0 <= duration_hours stop.

(** A duration that is a whole number of hours. *)
Definition wholeHours (stop : Stop) : Prop :=
  exists k : Z, (0 <= k)%Z /\ duration_hours stop == inject_Z k.

Definition allOffDuty (l : list Segment) : Prop :=
  Forall (fun s => status s = OffDuty) l.

Definition daysOffDuty (dd : DailyData) : Prop :=
  Forall (fun entry => allOffDuty (segments (snd entry))) dd.

(** The exact offset in hours of instant [t] from the midnight
    [dayStart], the quantity the expander's hours are compared with. *)
Definition exactHours (t dayStart : Z) : Q :=
  inject_Z (t - dayStart) / inject_Z millisecondsInHour.

(** The text [format(date, 'yyyy-MM-dd')] prints for a date of the years
    0..9999. *)
Definition digit (n : Z) : ascii := ascii_of_nat (48 + Z.to_nat (n mod 10)).

Definition twoDigits (n : Z) : string :=
  String (digit (n / 10)) (String (digit n) EmptyString).

Definition yyyy_MM_dd (c : CalendarDate) : string :=
  (twoDigits (dateYear c / 100) ++ twoDigits (dateYear c) ++ "-"
   ++ twoDigits (dateMonth c) ++ "-" ++ twoDigits (dateDay c))%string.

(** ** Scenarios *)

(** 2025-08-07T08:00, the default trip start of [DailyLogVisualizer]. *)
Definition tripStartA : Z := localDateTime 2025 8 7 8 0.

Definition scenarioA : list Stop :=
  [ mkStop "Driving" 11; mkStop "Daily Rest" 10 ].

Definition scenarioA_day1 : DayLog :=
  mkDayLog
    [ mkSegment OffDuty 0 8; mkSegment Driving 8 19; mkSegment OffDuty 19 24 ]
    (mkSummary 13 0 11 0).

Definition scenarioA_day2 : DayLog :=
  mkDayLog [ mkSegment OffDuty 0 24 ] (mkSummary 24 0 0 0).

(** A drive of an hour and a half, then a pickup of one hour. *)
Definition scenarioHalfHour : list Stop :=
  [ mkStop "Driving" (3 # 2); mkStop "Pickup Stop" 1 ].

(** A stop of no duration between two others. *)
Definition scenarioB_before : list Stop := [ mkStop "Driving" 2 ].
Definition scenarioB_after : list Stop := [ mkStop "Daily Rest" 3 ].

(** [planned_stops] of the [testRouteData] bundled with the trip form. *)
Definition testRouteData_planned_stops : list Stop :=
  [ mkStop "Driving (to Origin)" 11;
    mkStop "Daily Rest" 10;
    mkStop "Driving (to Origin)" (4377583333333334 # 1000000000000000);
    mkStop "Pickup Stop" 1;
    mkStop "Refueling Stop" (1 # 2);
    mkStop "Driving (to Destination)" 11;
    mkStop "Daily Rest" 10;
    mkStop "Driving (to Destination)" 11;
    mkStop "Daily Rest" 10;
    mkStop "Driving (to Destination)" (5435055555555554 # 1000000000000000);
    mkStop "Drop-off Stop" 1 ].

(** An unknown label between a drive and a rest, then a drive. *)
Definition scenarioC : list Stop :=
  [ mkStop "Driving" 2; mkStop "Inspection Stop" 1; mkStop "Daily Rest" 3;
    mkStop "Driving" 1 ].

(** ** Further predicates and the code around [processTripData] *)

(** Segments in ascending order that do not overlap, with any rational
    hours: [lo <= start < end <= next start ... <= 24]. *)
Fixpoint ascendingQ (lo : Q) (segs : list Segment) : Prop :=
  match segs with
  | [] => lo <= 24
  | s :: l =>
      lo <= startHour s /\ startHour s < endHour s /\ ascendingQ (endHour s) l
  end.

(** [summary[st]] *)
Definition summaryField (st : DutyStatus) (s : Summary) : Q :=
  match st with
  | OffDuty => sumOffDuty s
  | SleeperBirth => sumSleeperBirth s
  | Driving => sumDriving s
  | OnDutyNotDriving => sumOnDutyNotDriving s
  end.

(** The dates of [count] days in a row, the first one being day number
    [first]. *)
Definition dayKeys (first : Z) (count : nat) : list CalendarDate :=
  map (fun i => civil_from_days (first + Z.of_nat i)) (seq 0 count).

(** The number of calendar days met by the span from [startDate] up to,
    not including, [finish]. *)
Definition daysSpanned (startDate finish : Z) : nat :=
  if (finish <=? startDate)%Z then O
  else Z.to_nat ((finish - 1) / millisecondsInDay
                 - startDate / millisecondsInDay + 1).

(** A status value that is one of the four row labels. *)
Definition isRow (v : StatusValue) : Prop := exists r : DutyStatus, v = Row r.

(** A stop whose label does not name a member of [Object.prototype]. *)
Definition plainLabel (stop : Stop) : Prop := inherited (type stop) = false.

(** Every segment of [l], of every day of [dd], has its status in [P]. *)
Definition allStatus (P : StatusValue -> Prop) (l : list Segment) : Prop :=
  Forall (fun s => P (status s)) l.

Definition daysStatus (P : StatusValue -> Prop) (dd : DailyData) : Prop :=
  Forall (fun entry => allStatus P (segments (snd entry))) dd.

(** *** The chart of [DailyLogVisualizer] *)

Definition SVG_WIDTH : Q := 1000.
Definition SVG_HEIGHT : Q := 240.
Definition ROW_HEIGHT : Q := SVG_HEIGHT / 4.
Definition HOUR_WIDTH : Q := SVG_WIDTH / 24.

(** The [x1] of the lines drawn "at the start of the segment (if not the
    very beginning of the day)": [segment.startHour > 0 && <line .../>]. *)
Definition startLines (arr : list Segment) : list Q :=
  flat_map
    (fun segment =>
       if Qlt_bool 0 (startHour segment)
       then [startHour segment * HOUR_WIDTH] else [])
    arr.

(** The [x1] of the lines drawn at the end of a segment:
    [index < arr.length - 1 && <line .../>], for the segments from
    position [index] on. *)
Fixpoint endLinesFrom (index arr_length : nat) (rest : list Segment)
  : list Q :=
  match rest with
  | [] => []
  | segment :: rest' =>
      (if (index <? arr_length - 1)%nat
       then [endHour segment * HOUR_WIDTH] else [])
      ++ endLinesFrom (S index) arr_length rest'
  end.

Definition endLines (arr : list Segment) : list Q :=
  endLinesFrom 0 (List.length arr) arr.

(** *** The markers of [RouteInstructions] *)

(** The four images an icon can show ([iconUrl]). *)
Inductive Icon : Type :=
  | pickupIcon
  | refuelIcon
  | restIcon
  | dropoffIcon.

(** [getCustomIcon(type)], an icon being told by its [iconUrl]. *)
Definition getCustomIcon (type : string) : Icon :=
  if String.eqb type "start" then pickupIcon
  else if String.eqb type "end" then dropoffIcon
  else if String.eqb type "Drop-off Stop" then dropoffIcon
  else if String.eqb type "Pickup Stop" then pickupIcon
  else if String.eqb type "Refueling Stop" then refuelIcon
  else if String.eqb type "Daily Rest" then restIcon
  else restIcon.

(** The icon of the marker of [stop] at position [index]:
    [if (index === 0) icon = getCustomIcon('start');
     else if (index === stopsData.length - 1) icon = getCustomIcon('end');
     else icon = getCustomIcon(stop.type);] *)
Definition markerIcon (index stopsData_length : nat) (stop : Stop) : Icon :=
  if (index =? 0)%nat then getCustomIcon "start"
  else if (index =? stopsData_length - 1)%nat then getCustomIcon "end"
  else getCustomIcon (type stop).

(** [stopsData.map((stop, index) => ...)], from position [index] on. *)
Fixpoint markerIconsFrom (index stopsData_length : nat) (rest : list Stop)
  : list Icon :=
  match rest with
  | [] => []
  | stop :: rest' =>
      markerIcon index stopsData_length stop
      :: markerIconsFrom (S index) stopsData_length rest'
  end.

Definition markerIcons (stopsData : list Stop) : list Icon :=
  markerIconsFrom 0 (List.length stopsData) stopsData.

Ltac unfold_time :=
  unfold hourMark, startOfDay, addDays, minDate, millisecondsInDay,
    millisecondsInHour in *.

(** ** Basic facts on numbers *)

Lemma Qlt_bool_iff (a b : Q) : Qlt_bool a b = true <-> a < b.
Proof.
  unfold Qlt_bool. rewrite negb_true_iff.
  destruct (Qle_bool b a) eqn:E.
  - apply Qle_bool_iff in E. split; [discriminate | intros H; exfalso; lra].
  - split; [intros _ | reflexivity].
    apply Qnot_le_lt. intros H. apply Qle_bool_iff in H. congruence.
Qed.

Lemma Qlt_bool_false (a b : Q) : Qlt_bool a b = false <-> b <= a.
Proof.
  split; intros H.
  - apply Qnot_lt_le. intros L. apply Qlt_bool_iff in L. congruence.
  - destruct (Qlt_bool a b) eqn:E; [|reflexivity].
    apply Qlt_bool_iff in E. exfalso; lra.
Qed.

Lemma inject_Z_lt (x y : Z) : (x < y)%Z <-> inject_Z x < inject_Z y.
Proof. rewrite Zlt_Qlt. reflexivity. Qed.

Lemma inject_Z_le (x y : Z) : (x <= y)%Z <-> inject_Z x <= inject_Z y.
Proof. rewrite Zle_Qle. reflexivity. Qed.

Lemma Math_min_24_whole (e : Z) :
  (e <= 24)%Z -> Math_min 24 (inject_Z e) = inject_Z e.
Proof.
  intros He. unfold Math_min.
  destruct (Qlt_bool (inject_Z e) 24) eqn:E; [reflexivity|].
  apply Qlt_bool_false in E. apply (proj2 (inject_Z_le 24 e)) in E.
  replace e with 24%Z by lia. reflexivity.
Qed.

Lemma Math_min_24_cases (e : Q) :
  Math_min 24 e < 24 \/ Math_min 24 e = 24.
Proof.
  unfold Math_min. destruct (Qlt_bool e 24) eqn:E.
  - left. now apply Qlt_bool_iff.
  - now right.
Qed.

Lemma status_eqb_eq (a b : StatusValue) : status_eqb a b = true <-> a = b.
Proof.
  destruct a as [x | n], b as [y | m]; simpl.
  - destruct x, y; simpl; split; congruence.
  - split; discriminate.
  - split; discriminate.
  - rewrite String.eqb_eq. split; congruence.
Qed.

Lemma date_eqb_eq (a b : CalendarDate) : date_eqb a b = true <-> a = b.
Proof.
  destruct a as [y1 m1 d1], b as [y2 m2 d2]. unfold date_eqb. simpl.
  rewrite !andb_true_iff, !Z.eqb_eq. split.
  - intros [[-> ->] ->]. reflexivity.
  - intros E. injection E as -> -> ->. auto.
Qed.

(** ** The calendar: [format] names each day differently *)

Local Open Scope Z_scope.

Lemma days_from_civil_from_days (z : Z) :
  days_from_civil (civil_from_days z) = z.
Proof.
  unfold days_from_civil, civil_from_days; cbn [dateYear dateMonth dateDay].
  set (z' := z + 719468).
  set (era := z' / 146097).
  set (doe := z' mod 146097).
  assert (Hz : z' = 146097 * era + doe) by (subst era doe; apply Z.div_mod; lia).
  assert (Hdoe : 0 <= doe < 146097) by (subst doe; apply Z.mod_pos_bound; lia).
  clearbody era doe.
  set (yoe := (doe - doe / 1460 + doe / 36524 - doe / 146096) / 365).
  assert (Hyoe : 0 <= yoe <= 399) by (subst yoe; Z.div_mod_to_equations; lia).
  set (doy := doe - (365 * yoe + yoe / 4 - yoe / 100)).
  assert (Hdoy : 0 <= doy <= 365)
    by (subst doy yoe; Z.div_mod_to_equations; lia).
  set (mp := (5 * doy + 2) / 153).
  assert (Hmp : 0 <= mp <= 11) by (subst mp; Z.div_mod_to_equations; lia).
  assert (Hsplit : doe = yoe * 365 + yoe / 4 - yoe / 100 + doy)
    by (subst doy; lia).
  clearbody mp doy yoe.
  destruct (mp <? 10) eqn:E1.
  - apply Z.ltb_lt in E1.
    replace (mp + 3 <=? 2) with false by (symmetry; apply Z.leb_gt; lia).
    replace (2 <? mp + 3) with true by (symmetry; apply Z.ltb_lt; lia).
    replace (yoe + era * 400 + 0 - 0) with (yoe + era * 400) by lia.
    rewrite Z.div_add, Z.mod_add by lia.
    rewrite Z.div_small, Z.mod_small by lia.
    replace (mp + 3 - 3) with mp by lia. subst z'. lia.
  - apply Z.ltb_ge in E1.
    replace (mp - 9 <=? 2) with true by (symmetry; apply Z.leb_le; lia).
    replace (2 <? mp - 9) with false by (symmetry; apply Z.ltb_ge; lia).
    replace (yoe + era * 400 + 1 - 1) with (yoe + era * 400) by lia.
    rewrite Z.div_add, Z.mod_add by lia.
    rewrite Z.div_small, Z.mod_small by lia.
    replace (mp - 9 + 9) with mp by lia. subst z'. lia.
Qed.

Lemma civil_from_days_inj (n m : Z) :
  civil_from_days n = civil_from_days m -> n = m.
Proof.
  intros E. rewrite <- (days_from_civil_from_days n), E.
  apply days_from_civil_from_days.
Qed.

Lemma format_startOfDay (t : Z) :
  format (startOfDay t) = civil_from_days (t / millisecondsInDay).
Proof.
  unfold format, startOfDay. f_equal.
  rewrite Z.mul_comm, Z.div_mul; [reflexivity | discriminate].
Qed.

(** ** The merger *)

Local Open Scope Q_scope.

Lemma mergeLoop_acc (rest : list Segment) :
  forall cur acc, mergeLoop cur rest acc = acc ++ mergeLoop cur rest [].
Proof.
  induction rest as [|nxt rest IH]; intros cur acc; simpl.
  - reflexivity.
  - destruct (_ && _).
    + apply IH.
    + rewrite IH, (IH nxt [cur]), app_assoc. reflexivity.
Qed.

Lemma mergeLoop_step (cur nxt : Segment) (rest : list Segment) :
  mergeLoop cur (nxt :: rest) [] =
  if mergeable cur nxt
  then mergeLoop (mkSegment (status cur) (startHour cur) (endHour nxt)) rest []
  else cur :: mergeLoop nxt rest [].
Proof.
  simpl. unfold mergeable. destruct (_ && _); [reflexivity|].
  now rewrite mergeLoop_acc.
Qed.

(** The first merged segment keeps the status and the start of the
    segment the loop was started with. *)
Lemma mergeLoop_head (rest : list Segment) :
  forall cur, exists e tl,
    mergeLoop cur rest [] = mkSegment (status cur) (startHour cur) e :: tl.
Proof.
  induction rest as [|nxt rest IH]; intros cur.
  - exists (endHour cur), []. destruct cur; reflexivity.
  - rewrite mergeLoop_step. destruct (mergeable cur nxt).
    + destruct (IH (mkSegment (status cur) (startHour cur) (endHour nxt)))
        as (e & tl & ->).
      now exists e, tl.
    + exists (endHour cur), (mergeLoop nxt rest []). destruct cur; reflexivity.
Qed.

Lemma mergeLoop_separated (rest : list Segment) :
  forall cur, separated (mergeLoop cur rest []).
Proof.
  induction rest as [|nxt rest IH]; intros cur.
  - exact I.
  - rewrite mergeLoop_step. destruct (mergeable cur nxt) eqn:E.
    + apply IH.
    + specialize (IH nxt).
      destruct (mergeLoop_head rest nxt) as (e & tl & Hd).
      rewrite Hd in *. split; [exact E | exact IH].
Qed.

Lemma mergeLoop_fixed (rest : list Segment) :
  forall cur, separated (cur :: rest) -> mergeLoop cur rest [] = cur :: rest.
Proof.
  induction rest as [|nxt rest IH]; intros cur Hs.
  - reflexivity.
  - rewrite mergeLoop_step. destruct Hs as [-> Hs]. now rewrite IH.
Qed.

Lemma mergeSegments_separated (l : list Segment) :
  separated (mergeSegments l).
Proof. destruct l; [exact I | apply mergeLoop_separated]. Qed.

Lemma mergeLoop_chain (R : Q -> Q -> Prop)
  (Rtrans : forall a b c, R a b -> R b c -> R a c) (rest : list Segment) :
  forall cur p q,
    chain R p (cur :: rest) q -> chain R p (mergeLoop cur rest []) q.
Proof.
  induction rest as [|nxt rest IH]; intros cur p q Hc.
  - exact Hc.
  - rewrite mergeLoop_step. destruct Hc as (Hs & Hr & Hn & Hr' & Hc).
    destruct (mergeable cur nxt).
    + apply IH. simpl. repeat split; [exact Hs | | exact Hc].
      rewrite <- Hn in Hr. exact (Rtrans _ _ _ Hr Hr').
    + simpl. repeat split; [exact Hs | exact Hr |].
      apply IH. simpl. auto.
Qed.

Lemma mergeSegments_chain (R : Q -> Q -> Prop)
  (Rtrans : forall a b c, R a b -> R b c -> R a c) (l : list Segment) p q :
  chain R p l q -> chain R p (mergeSegments l) q.
Proof. destruct l; [trivial | now apply mergeLoop_chain]. Qed.

Lemma wholeLt_trans a b c : wholeLt a b -> wholeLt b c -> wholeLt a c.
Proof.
  intros (x & y & -> & -> & Hxy) (y' & z & E & -> & Hyz).
  exists x, z. repeat split; try reflexivity.
  assert (y = y') by (injection E; lia). lia.
Qed.

Lemma anyEnds_trans a b c : anyEnds a b -> anyEnds b c -> anyEnds a c.
Proof. trivial. Qed.

(** Exactly linked and separated neighbours differ in status. *)
Lemma chain_separated_alternating (R : Q -> Q -> Prop) (l : list Segment) :
  forall p q, chain R p l q -> separated l -> alternating l.
Proof.
  induction l as [|a [|b l] IH]; intros p q Hc Hs; try exact I.
  destruct Hs as [Hm Hs]. destruct Hc as (_ & _ & Hc).
  split; [| exact (IH _ _ Hc Hs)].
  destruct Hc as (Hb & _). intros E.
  unfold mergeable in Hm. rewrite Hb, E in Hm.
  replace (status_eqb (status b) (status b)) with true in Hm
    by (symmetry; now apply status_eqb_eq).
  simpl in Hm. apply Qlt_bool_false in Hm.
  assert (Qabs (endHour a - endHour a) == 0) as Hz.
  { setoid_replace (endHour a - endHour a) with 0 by ring. reflexivity. }
  rewrite Hz in Hm. revert Hm. apply Qlt_not_le. reflexivity.
Qed.

(** ** Chains of segments *)

Lemma chain_app (R : Q -> Q -> Prop) (l l' : list Segment) :
  forall p q r, chain R p l q -> chain R q l' r -> chain R p (l ++ l') r.
Proof.
  induction l as [|s l IH]; intros p q r H H'; simpl in *.
  - now subst.
  - destruct H as (Hs & Hr & Hc). eauto.
Qed.

Lemma chain_mono (R R' : Q -> Q -> Prop) (HR : forall a b, R a b -> R' a b)
  (l : list Segment) :
  forall p q, chain R p l q -> chain R' p l q.
Proof.
  induction l as [|s l IH]; intros p q H; simpl in *; [exact H|].
  destruct H as (Hs & Hr & Hc). auto.
Qed.

Lemma wholeLt_Qlt a b : wholeLt a b -> a < b.
Proof. intros (x & y & -> & -> & H). exact (proj1 (inject_Z_lt x y) H). Qed.

Lemma chain_le (l : list Segment) :
  forall p q, chain Qlt p l q -> p <= q.
Proof.
  induction l as [|s l IH]; intros p q H; simpl in H.
  - subst. apply Qle_refl.
  - destruct H as (Hs & Hr & Hc). subst p. apply IH in Hc. lra.
Qed.

Lemma chain_within (l : list Segment) :
  forall p q, chain Qlt p l q ->
    Forall (fun s => p <= startHour s /\ endHour s <= q) l.
Proof.
  induction l as [|s l IH]; intros p q H; simpl in H; constructor.
  - destruct H as (Hs & Hr & Hc). subst p. apply chain_le in Hc.
    split; [apply Qle_refl | exact Hc].
  - destruct H as (Hs & Hr & Hc). subst p.
    eapply Forall_impl; [| exact (IH _ _ Hc)].
    simpl. intros b [Hb Hb']. split; [lra | exact Hb'].
Qed.

Lemma chain_proper (l : list Segment) :
  forall p q, chain Qlt p l q -> Forall (fun s => startHour s < endHour s) l.
Proof.
  induction l as [|s l IH]; intros p q H; simpl in H; constructor.
  - tauto.
  - destruct H as (_ & _ & Hc). eauto.
Qed.

Lemma chain_sorted (l : list Segment) :
  forall p q, chain Qlt p l q ->
    StronglySorted (fun a b => startHour a < startHour b) l.
Proof.
  induction l as [|s l IH]; intros p q H; simpl in H; constructor.
  - destruct H as (_ & _ & Hc). eauto.
  - destruct H as (_ & Hr & Hc). apply chain_within in Hc.
    eapply Forall_impl; [| exact Hc]. simpl. intros b [Hb _]. lra.
Qed.

Lemma chain_disjoint (l : list Segment) :
  forall p q, chain Qlt p l q ->
    ForallOrdPairs (fun a b => endHour a <= startHour b) l.
Proof.
  induction l as [|s l IH]; intros p q H; simpl in H; constructor.
  - destruct H as (_ & _ & Hc). apply chain_within in Hc.
    eapply Forall_impl; [| exact Hc]. simpl. tauto.
  - destruct H as (_ & _ & Hc). eauto.
Qed.

Lemma chain_covers (l : list Segment) :
  forall p q h, chain Qlt p l q ->
    (p <= h /\ h < q <-> Exists (fun s => covers s h) l).
Proof.
  induction l as [|s l IH]; intros p q h H; simpl in H.
  - subst. split.
    + intros [H1 H2]. exfalso. lra.
    + intros E. inversion E.
  - destruct H as (Hs & Hr & Hc). subst p.
    pose proof (chain_le _ _ _ Hc) as Hle.
    specialize (IH _ _ h Hc). split.
    + intros [H1 H2]. destruct (Qlt_le_dec h (endHour s)) as [L|L].
      * left. now split.
      * right. apply IH. now split.
    + intros E. inversion E as [? ? [H1 H2]|? ? E']; subst.
      * split; lra.
      * apply IH in E'. split; lra.
Qed.

Lemma chain_sum (R : Q -> Q -> Prop) (l : list Segment) :
  forall p q, chain R p l q -> sumQ (map segmentHours l) == q - p.
Proof.
  induction l as [|s l IH]; intros p q H; simpl in *.
  - subst. ring.
  - destruct H as (Hs & _ & Hc). subst p. rewrite (IH _ _ Hc).
    unfold segmentHours. ring.
Qed.

Lemma chain_integral (l : list Segment) :
  forall p q, chain wholeLt p l q ->
    Forall (fun s => integral (segmentHours s)) l.
Proof.
  induction l as [|s l IH]; intros p q H; simpl in H; constructor.
  - destruct H as (_ & (x & y & Hx & Hy & _) & _).
    exists (y - x)%Z. unfold segmentHours. rewrite Hx, Hy.
    unfold Zminus. rewrite inject_Z_plus, inject_Z_opp. ring.
  - destruct H as (_ & _ & Hc). eauto.
Qed.

(** ** The sort leaves the expander's per-day order as it is *)

Lemma raw_ok_le (l : list Segment) :
  forall lo hi, raw_ok lo l hi -> (lo <= hi)%Z.
Proof.
  induction l as [|s l IH]; intros lo hi H; simpl in H; [exact H|].
  destruct H as (a & e & _ & _ & Hae & Hl). apply IH in Hl. lia.
Qed.

Lemma raw_ok_weaken (l : list Segment) :
  forall lo hi hi', raw_ok lo l hi -> (hi <= hi')%Z -> raw_ok lo l hi'.
Proof.
  induction l as [|s l IH]; intros lo hi hi' H Hle; simpl in *; [lia|].
  destruct H as (a & e & Ha & He & Hae & Hl). exists a, e. eauto.
Qed.

Lemma raw_ok_snoc (l : list Segment) (st : StatusValue) (a e : Z) :
  forall lo mid hi,
    raw_ok lo l mid -> (mid <= a < e)%Z -> (e <= hi)%Z ->
    raw_ok lo (l ++ [mkSegment st (inject_Z a) (inject_Z e)]) hi.
Proof.
  induction l as [|s l IH]; intros lo mid hi H Hae Hhi; simpl in *.
  - exists a, e. repeat split; try reflexivity; lia.
  - destruct H as (a' & e' & Ha & He & Hae' & Hl). exists a', e'.
    repeat split; try assumption; try lia. eapply IH; eauto.
Qed.

Lemma sortByStart_raw (l : list Segment) :
  forall lo hi, raw_ok lo l hi -> sortByStart l = l.
Proof.
  induction l as [|s l IH]; intros lo hi H; [reflexivity|].
  simpl in H. destruct H as (a & e & Ha & He & Hae & Hl).
  simpl. fold (sortByStart l). rewrite (IH _ _ Hl).
  destruct l as [|b l]; [reflexivity|]. simpl.
  simpl in Hl. destruct Hl as (a' & e' & Ha' & _ & Hae' & _).
  replace (Qle_bool (startHour s - startHour b) 0) with true; [reflexivity|].
  symmetry. apply Qle_bool_iff. rewrite Ha, Ha'.
  assert (inject_Z a <= inject_Z a') by (apply (proj1 (inject_Z_le a a')); lia). lra.
Qed.

(** ** The gap filler *)

Lemma fillStep_any (filled : list Segment) (ptr : Q) (seg : Segment) :
  chain anyEnds 0 filled ptr ->
  chain anyEnds 0 (fst (fillStep (filled, ptr) seg))
    (snd (fillStep (filled, ptr) seg)).
Proof.
  intros H. unfold fillStep. cbn [fst snd].
  eapply chain_app with (q := Math_max ptr (startHour seg)).
  - destruct (Qlt_bool ptr (Math_max ptr (startHour seg))) eqn:E.
    + eapply chain_app; [exact H|]. simpl. unfold anyEnds. auto.
    + unfold Math_max in *. destruct (Qlt_bool ptr (startHour seg)) eqn:E'.
      * congruence.
      * exact H.
  - simpl. unfold anyEnds. auto.
Qed.

Lemma fill_fold_any (segs : list Segment) :
  forall filled ptr,
    chain anyEnds 0 filled ptr -> ptr < 24 \/ ptr = 24 ->
    chain anyEnds 0 (fst (fold_left fillStep segs (filled, ptr)))
      (snd (fold_left fillStep segs (filled, ptr)))
    /\ (snd (fold_left fillStep segs (filled, ptr)) < 24
        \/ snd (fold_left fillStep segs (filled, ptr)) = 24).
Proof.
  induction segs as [|seg segs IH]; intros filled ptr H Hp; cbn [fold_left].
  - auto.
  - pose proof (fillStep_any filled ptr seg H) as H'.
    destruct (fillStep (filled, ptr) seg) as [f' p'] eqn:E.
    apply IH; [exact H'|].
    unfold fillStep in E. injection E as _ <-. apply Math_min_24_cases.
Qed.

(** On any input the gap filler returns segments that link up exactly
    from 0 to 24. *)
Lemma fillGaps_any (segs : list Segment) :
  chain anyEnds 0 (fillGaps segs) 24.
Proof.
  unfold fillGaps.
  destruct (fill_fold_any segs [] 0 eq_refl) as [H Hp].
  { left. reflexivity. }
  destruct (fold_left fillStep segs ([], 0)) as [f p]. cbn [fst snd] in *.
  destruct (Qlt_bool p 24) eqn:E.
  - eapply chain_app; [exact H|]. simpl. unfold anyEnds. auto.
  - destruct Hp as [Hp | ->]; [| exact H].
    apply Qlt_bool_iff in Hp. congruence.
Qed.

Lemma Math_max_whole (p a : Z) :
  (p <= a)%Z -> Math_max (inject_Z p) (inject_Z a) = inject_Z a.
Proof.
  intros H. unfold Math_max.
  destruct (Qlt_bool (inject_Z p) (inject_Z a)) eqn:E; [reflexivity|].
  apply Qlt_bool_false in E. apply (proj2 (inject_Z_le a p)) in E.
  f_equal. lia.
Qed.

Lemma fill_fold_whole (segs : list Segment) :
  forall filled p,
    chain wholeLt 0 filled (inject_Z p) -> raw_ok p segs 24 ->
    exists p' : Z,
      snd (fold_left fillStep segs (filled, inject_Z p)) = inject_Z p'
      /\ (p' <= 24)%Z
      /\ chain wholeLt 0 (fst (fold_left fillStep segs (filled, inject_Z p)))
           (inject_Z p').
Proof.
  induction segs as [|seg segs IH]; intros filled p H Hraw; simpl.
  - exists p. simpl in Hraw. auto.
  - simpl in Hraw. destruct Hraw as (a & e & Ha & He & Hae & Hl).
    pose proof (raw_ok_le _ _ _ Hl) as He24.
    rewrite Ha, He, Math_max_whole, Math_min_24_whole by lia.
    apply IH; [| exact Hl].
    eapply chain_app with (q := inject_Z a).
    + destruct (Qlt_bool (inject_Z p) (inject_Z a)) eqn:E.
      * eapply chain_app; [exact H|]. simpl. repeat split.
        exists p, a. repeat split.
        apply Qlt_bool_iff in E. exact (proj2 (inject_Z_lt p a) E).
      * apply Qlt_bool_false in E. apply (proj2 (inject_Z_le a p)) in E.
        replace a with p by lia. exact H.
    + simpl. repeat split. exists a, e. repeat split. lia.
Qed.

(** On a day as the expander leaves it, the filled segments are whole-hour
    spans of positive length linking up from 0 to 24. *)
Lemma fillGaps_whole (segs : list Segment) :
  raw_ok 0 segs 24 -> chain wholeLt 0 (fillGaps segs) 24.
Proof.
  intros Hraw. unfold fillGaps.
  destruct (fill_fold_whole segs [] 0%Z eq_refl Hraw) as (p' & Hp & Hle & H).
  change (inject_Z 0) with 0 in *.
  destruct (fold_left fillStep segs ([], 0)) as [f p]. cbn [fst snd] in *.
  subst p. destruct (Qlt_bool (inject_Z p') 24) eqn:E.
  - eapply chain_app; [exact H|]. simpl. repeat split.
    exists p', 24%Z. repeat split.
    apply Qlt_bool_iff in E. exact (proj2 (inject_Z_lt p' 24) E).
  - apply Qlt_bool_false in E.
    apply (proj2 (inject_Z_le 24 p')) in E.
    replace p' with 24%Z in H by lia. exact H.
Qed.

(** ** The summary *)

Lemma Qfloor_half (n : Z) : Qfloor (inject_Z n + (1 # 2)) = n.
Proof.
  pose proof (Qfloor_le (inject_Z n + (1 # 2))) as Hlo.
  pose proof (Qlt_floor (inject_Z n + (1 # 2))) as Hhi.
  set (f := Qfloor (inject_Z n + (1 # 2))) in *.
  assert (inject_Z f < inject_Z (n + 1)) as H1
    by (rewrite inject_Z_plus; change (inject_Z 1) with 1; lra).
  assert (inject_Z n < inject_Z (f + 1)) as H2 by lra.
  apply (proj2 (inject_Z_lt _ _)) in H1.
  apply (proj2 (inject_Z_lt _ _)) in H2. lia.
Qed.

Lemma Qmake_100 (f : Z) : f # 100 == inject_Z f * (1 # 100).
Proof. unfold Qeq, Qmult, inject_Z. simpl. lia. Qed.

Lemma toFixed2_integral (q : Q) : integral q -> toFixed2 q == q.
Proof.
  intros [z Hz]. unfold toFixed2. destruct (Qlt_bool q 0).
  - rewrite Qred_correct.
    assert (- q * 100 + (1 # 2) == inject_Z (- z * 100) + (1 # 2)) as E.
    { rewrite Hz, inject_Z_mult, inject_Z_opp. reflexivity. }
    rewrite E, Qfloor_half, Qmake_100, inject_Z_mult, inject_Z_opp, Hz.
    change (inject_Z 100) with 100. field.
  - rewrite Qred_correct.
    assert (q * 100 + (1 # 2) == inject_Z (z * 100) + (1 # 2)) as E.
    { rewrite Hz, inject_Z_mult. reflexivity. }
    rewrite E, Qfloor_half, Qmake_100, inject_Z_mult, Hz.
    change (inject_Z 100) with 100. field.
Qed.

Lemma integral_plus (a b : Q) : integral a -> integral b -> integral (a + b).
Proof.
  intros [x Hx] [y Hy]. exists (x + y)%Z.
  rewrite Hx, Hy, inject_Z_plus. reflexivity.
Qed.

Lemma addHoursTo_total (s : Summary) (seg : Segment) :
  isRow (status seg) ->
  summaryTotal (addHoursTo s seg) == summaryTotal s + segmentHours seg.
Proof.
  intros [r Hr]. unfold addHoursTo, summaryTotal, segmentHours. rewrite Hr.
  destruct r; simpl; ring.
Qed.

Lemma addHoursTo_integral (s : Summary) (seg : Segment) :
  integralSummary s -> integral (segmentHours seg) ->
  integralSummary (addHoursTo s seg).
Proof.
  intros (H1 & H2 & H3 & H4) Hseg. unfold addHoursTo.
  fold (segmentHours seg).
  destruct (status seg) as [[] | name]; simpl; repeat split; simpl;
    auto using integral_plus.
Qed.

Lemma fold_addHoursTo (l : list Segment) :
  allStatus isRow l ->
  forall s,
    summaryTotal (fold_left addHoursTo l s)
    == summaryTotal s + sumQ (map segmentHours l).
Proof.
  intros Hrow. induction Hrow as [|seg l Hseg Hrow IH]; intros s; simpl.
  - ring.
  - rewrite IH, addHoursTo_total by exact Hseg. ring.
Qed.

Lemma fold_addHoursTo_integral (l : list Segment) :
  forall s,
    integralSummary s -> Forall (fun seg => integral (segmentHours seg)) l ->
    integralSummary (fold_left addHoursTo l s).
Proof.
  induction l as [|seg l IH]; intros s Hs Hl; simpl; [exact Hs|].
  inversion Hl; subst. apply IH; [|assumption].
  now apply addHoursTo_integral.
Qed.

Lemma roundSummary_integral (s : Summary) :
  integralSummary s -> summaryTotal (roundSummary s) == summaryTotal s.
Proof.
  intros (H1 & H2 & H3 & H4). unfold roundSummary, summaryTotal. simpl.
  rewrite !toFixed2_integral by assumption. reflexivity.
Qed.

(** Whole-hour segments linking up from 0 to 24, each under one of the
    row labels, give four summary values whose sum is 24. *)
Lemma summarize_total (l : list Segment) :
  chain wholeLt 0 l 24 -> allStatus isRow l ->
  summaryTotal (summarize l) == 24.
Proof.
  intros H Hrow. unfold summarize.
  rewrite roundSummary_integral, (fold_addHoursTo _ Hrow),
    (chain_sum _ _ _ _ H).
  - unfold emptySummary, summaryTotal. simpl. ring.
  - apply fold_addHoursTo_integral.
    + repeat split; exists 0%Z; reflexivity.
    + eapply chain_integral; eauto.
Qed.

(** When the total is already 24 the table changes nothing. *)
Lemma mergedSummaryOf_exact (summaryData : Summary) :
  summaryTotal summaryData == 24 ->
  mergedSummaryOf summaryData
  = mkMergedSummary (sumOffDuty summaryData + sumSleeperBirth summaryData)
      (sumDriving summaryData) (sumOnDutyNotDriving summaryData).
Proof.
  intros H. unfold mergedSummaryOf.
  set (m := mkMergedSummary _ _ _).
  replace (Qlt_bool (1 # 100) (Qabs (rowsTotal m - 24))) with false;
    [reflexivity|].
  symmetry. apply Qlt_bool_false.
  assert (rowsTotal m - 24 == 0) as E.
  { unfold rowsTotal, m, summaryTotal in *. simpl. lra. }
  rewrite E. discriminate.
Qed.

(** ** The expander *)

Local Open Scope Z_scope.

Lemma hourMark_range (n t : Z) : 0 <= hourMark n t <= 24.
Proof. unfold hourMark. lia. Qed.

Lemma hourMark_mono (n t t' : Z) : t <= t' -> hourMark n t <= hourMark n t'.
Proof.
  intros H. unfold_time.
  assert ((t - n * 86400000) / 3600000 <= (t' - n * 86400000) / 3600000)
    by (apply Z.div_le_mono; lia).
  lia.
Qed.

Lemma differenceInHours_start (t : Z) :
  differenceInHours t (startOfDay t)
  = inject_Z (hourMark (t / millisecondsInDay) t).
Proof.
  unfold differenceInHours. f_equal. unfold_time.
  rewrite Z.quot_div_nonneg by (Z.div_mod_to_equations; lia).
  Z.div_mod_to_equations; lia.
Qed.

Lemma differenceInHours_end (t e : Z) :
  t < e ->
  differenceInHours (minDate e (addDays (startOfDay t) 1)) (startOfDay t)
  = inject_Z (hourMark (t / millisecondsInDay)
                (Z.min e ((t / millisecondsInDay + 1) * millisecondsInDay))).
Proof.
  intros H. unfold differenceInHours. f_equal. unfold_time.
  rewrite Z.quot_div_nonneg by (Z.div_mod_to_equations; lia).
  Z.div_mod_to_equations; lia.
Qed.

Lemma Qlt_bool_diff (a e : Z) :
  Qlt_bool 0 (inject_Z e - inject_Z a) = (a <? e).
Proof.
  destruct (a <? e) eqn:E.
  - apply Z.ltb_lt in E. apply Qlt_bool_iff.
    apply (proj1 (inject_Z_lt _ _)) in E. lra.
  - apply Z.ltb_ge in E. apply Qlt_bool_false.
    apply (proj1 (inject_Z_le _ _)) in E. lra.
Qed.

(** One turn of the loop, with the hours written as whole numbers. *)
Lemma splitAcrossDays_step (fuel : nat) (st : StatusValue) (t e : Z)
  (dd : DailyData) :
  t < e ->
  splitAcrossDays (S fuel) st t e dd =
  let n := t / millisecondsInDay in
  let next := (n + 1) * millisecondsInDay in
  let a := hourMark n t in
  let b := hourMark n (Z.min e next) in
  let dd1 := ensureDay (civil_from_days n) dd in
  splitAcrossDays fuel st next e
    (if a <? b
     then pushSegment (civil_from_days n)
            (mkSegment st (inject_Z a) (inject_Z b)) dd1
     else dd1).
Proof.
  intros H. cbn [splitAcrossDays]. unfold isBefore.
  replace (t <? e) with true by (symmetry; now apply Z.ltb_lt).
  rewrite format_startOfDay, differenceInHours_start,
    (differenceInHours_end _ _ H), Qlt_bool_diff.
  cbv zeta. f_equal.
  unfold startOfDay, addDays, millisecondsInDay. lia.
Qed.

Lemma splitAcrossDays_done (fuel : nat) (st : StatusValue) (t e : Z)
  (dd : DailyData) :
  e <= t -> splitAcrossDays fuel st t e dd = dd.
Proof.
  intros H. destruct fuel; [reflexivity|]. cbn [splitAcrossDays].
  unfold isBefore. now replace (t <? e) with false
    by (symmetry; now apply Z.ltb_ge).
Qed.

(** The loop has stopped on its own test when [daysTouched] turns are
    allowed: more fuel changes nothing. *)
Lemma splitAcrossDays_fuel (fuel : nat) (st : StatusValue) :
  forall t e dd extra,
    (Z.to_nat (e / millisecondsInDay - t / millisecondsInDay + 1)
     <= fuel)%nat ->
    splitAcrossDays (fuel + extra) st t e dd = splitAcrossDays fuel st t e dd.
Proof.
  induction fuel as [|fuel IH]; intros t e dd extra Hf.
  - rewrite !splitAcrossDays_done; [reflexivity | |];
      unfold millisecondsInDay in *; Z.div_mod_to_equations; lia.
  - destruct (Z_lt_le_dec t e) as [L|L].
    + change (S fuel + extra)%nat with (S (fuel + extra)).
      rewrite !splitAcrossDays_step by exact L. cbv zeta.
      apply IH. unfold millisecondsInDay in *.
      rewrite Z.div_mul by discriminate. lia.
    + now rewrite !splitAcrossDays_done.
Qed.

Lemma expandStop_fuel (st : StatusValue) (t e : Z) (dd : DailyData)
  (extra : nat) :
  splitAcrossDays (daysTouched t e + extra) st t e dd
  = splitAcrossDays (daysTouched t e) st t e dd.
Proof. apply splitAcrossDays_fuel. unfold daysTouched. lia. Qed.

Lemma day_ok_mono (t t' : Z) (entry : CalendarDate * DayLog) :
  t <= t' -> day_ok t entry -> day_ok t' entry.
Proof.
  intros H (n & Hk & Hr). exists n. split; [exact Hk|].
  eapply raw_ok_weaken; [exact Hr | now apply hourMark_mono].
Qed.

Lemma ensureDay_ok (t n : Z) (dd : DailyData) :
  Forall (day_ok t) dd -> Forall (day_ok t) (ensureDay (civil_from_days n) dd).
Proof.
  intros H. unfold ensureDay.
  destruct (dailyData_get _ dd); [exact H|].
  apply Forall_app. split; [exact H|]. constructor; [|constructor].
  exists n. split; [reflexivity|]. simpl. apply hourMark_range.
Qed.

Lemma pushSegment_ok (t t' n a b : Z) (st : StatusValue) (dd : DailyData) :
  t <= t' -> hourMark n t <= a -> a < b -> b <= hourMark n t' ->
  Forall (day_ok t) dd ->
  Forall (day_ok t')
    (pushSegment (civil_from_days n) (mkSegment st (inject_Z a) (inject_Z b))
       dd).
Proof.
  intros Ht Ha Hab Hb H.
  induction H as [|[k log] dd Hk H IH]; simpl; [constructor|].
  destruct (date_eqb k (civil_from_days n)) eqn:E.
  - constructor.
    + apply date_eqb_eq in E. destruct Hk as (n' & Hn' & Hr).
      simpl in Hn', Hr. rewrite E in Hn'. apply civil_from_days_inj in Hn'.
      subst n'. exists n. split; [exact E|]. simpl.
      apply (raw_ok_snoc _ _ _ _ _ (hourMark n t)); [exact Hr | lia | exact Hb].
    + eapply Forall_impl; [| exact H]. intros x. now apply day_ok_mono.
  - constructor; [now apply (day_ok_mono t) | exact IH].
Qed.

Lemma splitAcrossDays_ok (fuel : nat) (st : StatusValue) :
  forall t e dd tau,
    tau <= t -> tau <= e -> Forall (day_ok tau) dd ->
    Forall (day_ok e) (splitAcrossDays fuel st t e dd).
Proof.
  induction fuel as [|fuel IH]; intros t e dd tau Ht He H.
  - simpl. eapply Forall_impl; [| exact H]. intros x. now apply day_ok_mono.
  - destruct (Z_lt_le_dec t e) as [L|L].
    + rewrite splitAcrossDays_step by exact L. cbv zeta.
      set (n := t / millisecondsInDay).
      set (next := (n + 1) * millisecondsInDay).
      assert (t < next) as Hnext
        by (subst next n; unfold millisecondsInDay;
            Z.div_mod_to_equations; lia).
      apply (IH _ _ _ (Z.min e next)); [lia | lia |].
      destruct (hourMark n t <? hourMark n (Z.min e next)) eqn:E.
      * apply Z.ltb_lt in E.
        apply (pushSegment_ok tau); try lia.
        -- apply hourMark_mono. lia.
        -- apply ensureDay_ok. exact H.
      * apply ensureDay_ok. eapply Forall_impl; [| exact H].
        intros x. apply day_ok_mono. lia.
    + rewrite splitAcrossDays_done by exact L.
      eapply Forall_impl; [| exact H]. intros x. now apply day_ok_mono.
Qed.

Lemma Qtrunc_whole (q : Q) (z : Z) : (q == inject_Z z)%Q -> Qtrunc q = z.
Proof.
  intros H. unfold Qtrunc. destruct (Qle_bool 0 q).
  - rewrite H. apply Qfloor_Z.
  - rewrite H. apply Qceiling_Z.
Qed.

Lemma addHours_whole (t k : Z) (d : Q) :
  (d == inject_Z k)%Q -> addHours t d = t + k * millisecondsInHour.
Proof.
  intros H. unfold addHours. apply Qtrunc_whole.
  rewrite H, inject_Z_plus, inject_Z_mult. reflexivity.
Qed.

(** A duration that is not negative never moves the clock back. *)
Lemma addHours_ge (t : Z) (d : Q) : (0 <= d)%Q -> t <= addHours t d.
Proof.
  intros H. unfold addHours, Qtrunc.
  set (q := (inject_Z t + d * inject_Z millisecondsInHour)%Q).
  assert (inject_Z t <= q)%Q as Hq.
  { subst q. unfold millisecondsInHour.
    assert (0 <= d * inject_Z 3600000)%Q
      by (apply Qmult_le_0_compat; [exact H | discriminate]).
    lra. }
  destruct (Qle_bool 0 q).
  - rewrite <- (Qfloor_Z t). now apply Qfloor_resp_le.
  - rewrite <- (Qceiling_Z t). now apply Qceiling_resp_le.
Qed.

Lemma expandStop_ok (dd : DailyData) (t : Z) (stop : Stop) :
  nonNegative stop -> Forall (day_ok t) dd ->
  Forall (day_ok (snd (expandStop (dd, t) stop)))
    (fst (expandStop (dd, t) stop)).
Proof.
  intros Hd H. unfold expandStop. cbn [fst snd].
  apply (splitAcrossDays_ok _ _ _ _ _ t); [lia | | exact H].
  now apply addHours_ge.
Qed.

Lemma fold_expandStop_ok (stops : list Stop) :
  forall dd t,
    Forall nonNegative stops -> Forall (day_ok t) dd ->
    Forall (day_ok (snd (fold_left expandStop stops (dd, t))))
      (fst (fold_left expandStop stops (dd, t))).
Proof.
  induction stops as [|stop stops IH]; intros dd t Hs H; cbn [fold_left].
  - exact H.
  - inversion Hs as [|? ? Hstop Hrest]; subst.
    pose proof (expandStop_ok dd t stop Hstop H) as H'.
    destruct (expandStop (dd, t) stop) as [dd' t'] eqn:E.
    unfold DailyData in *. rewrite E in H'.
    apply IH; [exact Hrest | exact H'].
Qed.

(** With durations that are not negative, every day the expander leaves
    holds whole-hour segments in ascending order within 0..24. *)
Lemma expandTrip_raw (stops : list Stop) (startDate : Z) :
  Forall nonNegative stops ->
  Forall (fun entry => raw_ok 0 (segments (snd entry)) 24)
    (fst (expandTrip stops startDate)).
Proof.
  intros Hs. unfold expandTrip.
  pose proof (fold_expandStop_ok stops [] startDate Hs (Forall_nil _)) as H.
  eapply Forall_impl; [| exact H]. intros entry (n & _ & Hr).
  eapply raw_ok_weaken; [exact Hr | apply hourMark_range].
Qed.

(** ** Hours emitted by the expander *)

Local Open Scope Q_scope.

Lemma inject_Z_eq (x y : Z) : x = y -> inject_Z x == inject_Z y.
Proof. intros ->. reflexivity. Qed.

Lemma sumQ_app (l l' : list Q) : sumQ (l ++ l') == sumQ l + sumQ l'.
Proof.
  induction l as [|x l IH]; simpl; [ring|]. rewrite IH. ring.
Qed.

Lemma dailyData_get_last (key : CalendarDate) (log : DayLog)
  (dd : DailyData) :
  dailyData_get key dd = None ->
  dailyData_get key (dd ++ [(key, log)]) = Some log.
Proof.
  induction dd as [|[k v] dd IH]; simpl; intros H.
  - now replace (date_eqb key key) with true
      by (symmetry; now apply date_eqb_eq).
  - destruct (date_eqb k key); [discriminate | auto].
Qed.

Lemma ensureDay_get (key : CalendarDate) (dd : DailyData) :
  dailyData_get key (ensureDay key dd) <> None.
Proof.
  unfold ensureDay. destruct (dailyData_get key dd) eqn:E.
  - congruence.
  - rewrite dailyData_get_last by exact E. discriminate.
Qed.

Lemma ensureDay_total (key : CalendarDate) (dd : DailyData) :
  totalHours (ensureDay key dd) == totalHours dd.
Proof.
  unfold ensureDay. destruct (dailyData_get key dd); [reflexivity|].
  unfold totalHours. rewrite map_app, sumQ_app. simpl.
  unfold dayHours. simpl. ring.
Qed.

Lemma pushSegment_total (key : CalendarDate) (seg : Segment)
  (dd : DailyData) :
  dailyData_get key dd <> None ->
  totalHours (pushSegment key seg dd) == totalHours dd + segmentHours seg.
Proof.
  induction dd as [|[k v] dd IH]; simpl; intros H; [congruence|].
  destruct (date_eqb k key).
  - unfold totalHours. simpl. unfold dayHours at 1 3. simpl.
    rewrite map_app, sumQ_app. simpl. ring.
  - specialize (IH H). unfold totalHours in *. simpl. rewrite IH. ring.
Qed.

Lemma splitAcrossDays_total (fuel : nat) (st : StatusValue) :
  forall t e dd,
    (Z.to_nat (e / millisecondsInDay - t / millisecondsInDay + 1)
     <= fuel)%nat ->
    (t <= e)%Z ->
    totalHours (splitAcrossDays fuel st t e dd)
    == totalHours dd
       + inject_Z (e / millisecondsInHour - t / millisecondsInHour).
Proof.
  induction fuel as [|fuel IH]; intros t e dd Hf Hte.
  - exfalso. unfold millisecondsInDay in Hf.
    assert (t / 86400000 <= e / 86400000)%Z
      by (apply Z.div_le_mono; lia). lia.
  - destruct (Z_lt_le_dec t e) as [L|L].
    + rewrite splitAcrossDays_step by exact L. cbv zeta.
      set (n := (t / millisecondsInDay)%Z).
      set (next := ((n + 1) * millisecondsInDay)%Z).
      set (a := hourMark n t). set (b := hourMark n (Z.min e next)).
      set (dd1 := ensureDay (civil_from_days n) dd).
      set (dd2 := if (a <? b)%Z then _ else _).
      assert (t < next)%Z as Hnext
        by (subst next n; unfold millisecondsInDay;
            Z.div_mod_to_equations; lia).
      assert (a <= b)%Z as Hab by (apply hourMark_mono; lia).
      assert (totalHours dd2 == totalHours dd + inject_Z (b - a)) as H2.
      { subst dd2. destruct (a <? b)%Z eqn:E.
        - rewrite pushSegment_total by apply ensureDay_get.
          subst dd1. rewrite ensureDay_total. unfold segmentHours. simpl.
          unfold Zminus. rewrite inject_Z_plus, inject_Z_opp. ring.
        - apply Z.ltb_ge in E. replace (b - a)%Z with 0%Z by lia.
          subst dd1. rewrite ensureDay_total. change (inject_Z 0) with 0.
          ring. }
      destruct (Z_lt_le_dec e next) as [Le|Le].
      * rewrite splitAcrossDays_done by lia. rewrite H2.
        apply Qplus_inj_l. apply inject_Z_eq. subst a b n next.
        unfold hourMark, millisecondsInDay, millisecondsInHour in *.
        Z.div_mod_to_equations; lia.
      * rewrite IH; [| | exact Le].
        -- rewrite H2, <- Qplus_assoc, <- inject_Z_plus.
           apply Qplus_inj_l. apply inject_Z_eq. subst a b n next.
           unfold hourMark, millisecondsInDay, millisecondsInHour in *.
           Z.div_mod_to_equations; lia.
        -- subst next n. unfold millisecondsInDay in *.
           rewrite Z.div_mul by discriminate. lia.
    + assert (t = e) by lia. subst e.
      rewrite splitAcrossDays_done by lia.
      rewrite Z.sub_diag. change (inject_Z 0) with 0. ring.
Qed.

Lemma fold_expandStop_total (stops : list Stop) :
  forall dd t,
    Forall nonNegative stops ->
    totalHours (fst (fold_left expandStop stops (dd, t)))
    == totalHours dd
       + inject_Z (snd (fold_left expandStop stops (dd, t))
                     / millisecondsInHour - t / millisecondsInHour).
Proof.
  induction stops as [|stop stops IH]; intros dd t Hs; cbn [fold_left].
  - cbn [fst snd]. rewrite Z.sub_diag. change (inject_Z 0) with 0. ring.
  - inversion Hs as [|? ? Hstop Hrest]; subst.
    unfold expandStop at 2 4. rewrite IH by exact Hrest.
    rewrite splitAcrossDays_total;
      [| unfold daysTouched; lia | now apply addHours_ge].
    rewrite <- Qplus_assoc, <- inject_Z_plus.
    apply Qplus_inj_l. apply inject_Z_eq. lia.
Qed.

Lemma wholeHours_nonNegative (stop : Stop) :
  wholeHours stop -> nonNegative stop.
Proof.
  intros (k & Hk & E). unfold nonNegative. rewrite E.
  now apply (proj1 (inject_Z_le 0 k)).
Qed.

Lemma fold_expandStop_clock (stops : list Stop) :
  forall dd t,
    Forall wholeHours stops ->
    exists K : Z,
      snd (fold_left expandStop stops (dd, t))
      = (t + K * millisecondsInHour)%Z
      /\ sumQ (map duration_hours stops) == inject_Z K.
Proof.
  induction stops as [|stop stops IH]; intros dd t Hs; cbn [fold_left].
  - exists 0%Z. simpl. split; [lia | reflexivity].
  - inversion Hs as [|? ? (k & Hk & E) Hrest]; subst.
    unfold expandStop at 2.
    destruct (IH (splitAcrossDays
                    (daysTouched t (addHours t (duration_hours stop)))
                    (eldStatusOf (type stop)) t
                    (addHours t (duration_hours stop)) dd)
                 (addHours t (duration_hours stop)) Hrest) as (K & HK & HS).
    exists (k + K)%Z. split.
    + rewrite HK, (addHours_whole _ k) by exact E. lia.
    + simpl. rewrite HS, E, inject_Z_plus. reflexivity.
Qed.

(** ** Off-duty days *)

Lemma ensureDay_off (key : CalendarDate) (dd : DailyData) :
  daysOffDuty dd -> daysOffDuty (ensureDay key dd).
Proof.
  intros H. unfold ensureDay. destruct (dailyData_get key dd); [exact H|].
  apply Forall_app. split; [exact H|]. repeat constructor.
Qed.

Lemma pushSegment_off (key : CalendarDate) (seg : Segment) (dd : DailyData) :
  status seg = OffDuty -> daysOffDuty dd ->
  daysOffDuty (pushSegment key seg dd).
Proof.
  intros Hs H. induction H as [|[k log] dd Hk H IH]; simpl; [constructor|].
  destruct (date_eqb k key); constructor; auto.
  simpl. apply Forall_app. split; [exact Hk | now constructor].
Qed.

Lemma splitAcrossDays_off (fuel : nat) :
  forall t e dd,
    daysOffDuty dd -> daysOffDuty (splitAcrossDays fuel OffDuty t e dd).
Proof.
  induction fuel as [|fuel IH]; intros t e dd H; cbn [splitAcrossDays].
  - exact H.
  - destruct (isBefore t e); [| exact H]. apply IH.
    destruct (Qlt_bool _ _).
    + apply pushSegment_off; [reflexivity | now apply ensureDay_off].
    + now apply ensureDay_off.
Qed.

Lemma fold_expandStop_off (stops : list Stop) :
  forall dd t,
    Forall (fun stop => eldStatusOf (type stop) = OffDuty) stops ->
    daysOffDuty dd ->
    daysOffDuty (fst (fold_left expandStop stops (dd, t))).
Proof.
  induction stops as [|stop stops IH]; intros dd t Hs H; cbn [fold_left].
  - exact H.
  - inversion Hs as [|? ? Hstop Hrest]; subst. unfold expandStop at 2.
    apply IH; [exact Hrest|]. rewrite Hstop. now apply splitAcrossDays_off.
Qed.

Lemma insertByStart_off (a : Segment) (l : list Segment) :
  status a = OffDuty -> allOffDuty l -> allOffDuty (insertByStart a l).
Proof.
  intros Ha H. induction H as [|b l Hb H IH]; simpl.
  - now repeat constructor.
  - destruct (Qle_bool _ _); repeat constructor; auto.
Qed.

Lemma sortByStart_off (l : list Segment) :
  allOffDuty l -> allOffDuty (sortByStart l).
Proof.
  intros H. induction H as [|a l Ha H IH]; simpl; [constructor|].
  now apply insertByStart_off.
Qed.

Lemma fill_fold_off (segs : list Segment) :
  forall filled ptr,
    allOffDuty segs -> allOffDuty filled ->
    allOffDuty (fst (fold_left fillStep segs (filled, ptr))).
Proof.
  induction segs as [|seg segs IH]; intros filled ptr Hs H; cbn [fold_left].
  - exact H.
  - inversion Hs as [|? ? Hseg Hrest]; subst. unfold fillStep at 2.
    apply IH; [exact Hrest|].
    apply Forall_app. split; [| now repeat constructor].
    destruct (Qlt_bool _ _); [| exact H].
    apply Forall_app. split; [exact H | now repeat constructor].
Qed.

Lemma fillGaps_off (segs : list Segment) :
  allOffDuty segs -> allOffDuty (fillGaps segs).
Proof.
  intros H. unfold fillGaps.
  pose proof (fill_fold_off segs [] 0 H (Forall_nil _)) as H'.
  destruct (fold_left fillStep segs ([], 0)) as [f p]. cbn [fst] in H'.
  destruct (Qlt_bool p 24); [| exact H'].
  apply Forall_app. split; [exact H' | now repeat constructor].
Qed.

Lemma mergeLoop_off (rest : list Segment) :
  forall cur,
    status cur = OffDuty -> allOffDuty rest ->
    allOffDuty (mergeLoop cur rest []).
Proof.
  induction rest as [|nxt rest IH]; intros cur Hc Hr.
  - now repeat constructor.
  - inversion Hr as [|? ? Hn Hrest]; subst. rewrite mergeLoop_step.
    destruct (mergeable cur nxt).
    + now apply IH.
    + constructor; [exact Hc | now apply IH].
Qed.

Lemma mergeSegments_off (l : list Segment) :
  allOffDuty l -> allOffDuty (mergeSegments l).
Proof.
  intros H. destruct l as [|s l]; [constructor|].
  inversion H; subst. now apply mergeLoop_off.
Qed.

(** Off-duty segments that link up from 0 to 24 and cannot be merged any
    further are the single segment Off Duty 0..24. *)
Lemma single_off_run (l : list Segment) :
  allOffDuty l -> separated l -> chain anyEnds 0 l 24 ->
  l = [mkSegment OffDuty 0 24].
Proof.
  intros Hoff Hsep Hc.
  pose proof (chain_separated_alternating _ _ _ _ Hc Hsep) as Halt.
  destruct l as [|a [|b l]].
  - simpl in Hc. discriminate.
  - simpl in Hc. destruct Hc as (Hs & _ & He).
    inversion Hoff as [|? ? Ha _]; subst.
    destruct a as [st s e]. simpl in *. now subst.
  - exfalso. destruct Halt as [Hne _].
    inversion Hoff as [|? ? Ha Hoff']; subst.
    inversion Hoff' as [|? ? Hb _]; subst. congruence.
Qed.

(** ** Days of the result *)

Lemma processTripData_In (stops : list Stop) (startDate : Z)
  (key : CalendarDate) (log : DayLog) :
  In (key, log) (processTripData stops startDate) ->
  exists raw,
    In (key, raw) (fst (expandTrip stops startDate))
    /\ log = postProcessDay raw.
Proof.
  unfold processTripData, postProcess. intros H.
  apply in_map_iff in H. destruct H as ([k raw] & E & Hin).
  simpl in E. injection E as -> <-. now exists raw.
Qed.

Lemma postProcessDay_any (raw : DayLog) :
  chain anyEnds 0 (segments (postProcessDay raw)) 24
  /\ separated (segments (postProcessDay raw)).
Proof.
  unfold postProcessDay. cbn [segments]. split.
  - apply mergeSegments_chain; [exact anyEnds_trans | apply fillGaps_any].
  - apply mergeSegments_separated.
Qed.

Lemma postProcessDay_whole (raw : DayLog) :
  raw_ok 0 (segments raw) 24 ->
  chain wholeLt 0 (segments (postProcessDay raw)) 24.
Proof.
  intros H. unfold postProcessDay. cbn [segments].
  apply mergeSegments_chain; [exact wholeLt_trans|].
  rewrite (sortByStart_raw _ _ _ H). now apply fillGaps_whole.
Qed.

Lemma processTripData_whole (stops : list Stop) (startDate : Z)
  (key : CalendarDate) (log : DayLog) :
  Forall nonNegative stops ->
  In (key, log) (processTripData stops startDate) ->
  chain wholeLt 0 (segments log) 24.
Proof.
  intros Hs Hin. apply processTripData_In in Hin.
  destruct Hin as (raw & Hin & ->). apply postProcessDay_whole.
  pose proof (expandTrip_raw stops startDate Hs) as H.
  rewrite Forall_forall in H. exact (H _ Hin).
Qed.

(** ** Per-status totals *)

Local Open Scope Q_scope.

Lemma Qlt_bool_comp (a a' b b' : Q) :
  a == a' -> b == b' -> Qlt_bool a b = Qlt_bool a' b'.
Proof.
  intros Ha Hb. destruct (Qlt_bool a' b') eqn:E.
  - apply Qlt_bool_iff. apply Qlt_bool_iff in E. lra.
  - apply Qlt_bool_false. apply Qlt_bool_false in E. lra.
Qed.

Lemma toFixed2_comp (x y : Q) : x == y -> toFixed2 x = toFixed2 y.
Proof.
  intros H. unfold toFixed2.
  rewrite (Qlt_bool_comp x y 0 0 H (Qeq_refl 0)).
  destruct (Qlt_bool y 0); apply Qred_complete.
  - assert (Qfloor (- x * 100 + (1 # 2)) = Qfloor (- y * 100 + (1 # 2))) as E
      by (apply Qfloor_comp; rewrite H; reflexivity).
    rewrite E. reflexivity.
  - assert (Qfloor (x * 100 + (1 # 2)) = Qfloor (y * 100 + (1 # 2))) as E
      by (apply Qfloor_comp; rewrite H; reflexivity).
    rewrite E. reflexivity.
Qed.

Lemma statusHours_app (st : StatusValue) (l l' : list Segment) :
  statusHours st (l ++ l') == statusHours st l + statusHours st l'.
Proof.
  unfold statusHours. rewrite filter_app, map_app. apply sumQ_app.
Qed.

Lemma statusHours_cons (st : StatusValue) (s : Segment) (l : list Segment) :
  statusHours st (s :: l)
  == (if status_eqb (status s) st then segmentHours s else 0)
     + statusHours st l.
Proof.
  unfold statusHours. cbn [filter].
  destruct (status_eqb (status s) st); simpl; ring.
Qed.

Lemma fold_addHoursTo_fields (l : list Segment) :
  forall s,
    sumOffDuty (fold_left addHoursTo l s)
    == sumOffDuty s + statusHours OffDuty l
    /\ sumSleeperBirth (fold_left addHoursTo l s)
       == sumSleeperBirth s + statusHours SleeperBirth l
    /\ sumDriving (fold_left addHoursTo l s)
       == sumDriving s + statusHours Driving l
    /\ sumOnDutyNotDriving (fold_left addHoursTo l s)
       == sumOnDutyNotDriving s + statusHours OnDutyNotDriving l.
Proof.
  induction l as [|seg l IH]; intros s.
  - unfold statusHours. simpl. repeat split; ring.
  - cbn [fold_left]. destruct (IH (addHoursTo s seg)) as (H1 & H2 & H3 & H4).
    rewrite H1, H2, H3, H4. clear. unfold statusHours, addHoursTo.
    fold (segmentHours seg). cbn [filter].
    destruct (status seg) as [[] | name]; simpl; repeat split; ring.
Qed.

(** Each summary value is the rounded total of the segments of that
    status. *)
Lemma summarize_fields (l : list Segment) :
  summarize l
  = mkSummary (toFixed2 (statusHours OffDuty l))
      (toFixed2 (statusHours SleeperBirth l))
      (toFixed2 (statusHours Driving l))
      (toFixed2 (statusHours OnDutyNotDriving l)).
Proof.
  unfold summarize, roundSummary.
  destruct (fold_addHoursTo_fields l emptySummary) as (H1 & H2 & H3 & H4).
  f_equal; apply toFixed2_comp.
  - rewrite H1. simpl. ring.
  - rewrite H2. simpl. ring.
  - rewrite H3. simpl. ring.
  - rewrite H4. simpl. ring.
Qed.

Lemma postProcess_total (dd : DailyData) :
  totalHours (postProcess dd) == 24 * inject_Z (Z.of_nat (List.length dd)).
Proof.
  induction dd as [|[k raw] dd IH].
  - reflexivity.
  - unfold totalHours in *. cbn [postProcess map sumQ fold_right List.length].
    unfold postProcess in IH. rewrite IH. cbn [snd].
    unfold dayHours.
    rewrite (chain_sum _ _ _ _ (proj1 (postProcessDay_any raw))).
    rewrite Nat2Z.inj_succ. unfold Z.succ. rewrite inject_Z_plus.
    change (inject_Z 1) with 1. ring.
Qed.

(** ** Statuses that can occur *)

Section StatusInvariant.

(** A set of statuses that holds Off Duty, the status of every gap. *)
Variable P : StatusValue -> Prop.
Hypothesis P_OffDuty : P OffDuty.

Lemma ensureDay_statuses (key : CalendarDate) (dd : DailyData) :
  daysStatus P dd -> daysStatus P (ensureDay key dd).
Proof.
  intros H. unfold ensureDay. destruct (dailyData_get key dd); [exact H|].
  apply Forall_app. split; [exact H|]. repeat constructor.
Qed.

Lemma pushSegment_statuses (key : CalendarDate) (seg : Segment)
  (dd : DailyData) :
  P (status seg) -> daysStatus P dd -> daysStatus P (pushSegment key seg dd).
Proof.
  intros Hs H. induction H as [|[k log] dd Hk H IH]; simpl; [constructor|].
  destruct (date_eqb k key); constructor; auto.
  simpl. apply Forall_app. split; [exact Hk | now constructor].
Qed.

Lemma splitAcrossDays_statuses (fuel : nat) (st : StatusValue) :
  P st ->
  forall t e dd, daysStatus P dd -> daysStatus P (splitAcrossDays fuel st t e dd).
Proof.
  intros Hst. induction fuel as [|fuel IH]; intros t e dd H;
    cbn [splitAcrossDays].
  - exact H.
  - destruct (isBefore t e); [| exact H]. apply IH.
    destruct (Qlt_bool _ _).
    + apply pushSegment_statuses; [exact Hst | now apply ensureDay_statuses].
    + now apply ensureDay_statuses.
Qed.

Lemma fold_expandStop_statuses (stops : list Stop) :
  forall dd t,
    Forall (fun stop => P (eldStatusOf (type stop))) stops ->
    daysStatus P dd -> daysStatus P (fst (fold_left expandStop stops (dd, t))).
Proof.
  induction stops as [|stop stops IH]; intros dd t Hs H; cbn [fold_left].
  - exact H.
  - inversion Hs as [|? ? Hstop Hrest]; subst. unfold expandStop at 2.
    apply IH; [exact Hrest|]. now apply splitAcrossDays_statuses.
Qed.

Lemma insertByStart_statuses (a : Segment) (l : list Segment) :
  P (status a) -> allStatus P l -> allStatus P (insertByStart a l).
Proof.
  intros Ha H. induction H as [|b l Hb H IH]; simpl.
  - now repeat constructor.
  - destruct (Qle_bool _ _); repeat constructor; auto.
Qed.

Lemma sortByStart_statuses (l : list Segment) :
  allStatus P l -> allStatus P (sortByStart l).
Proof.
  intros H. induction H as [|a l Ha H IH]; simpl; [constructor|].
  now apply insertByStart_statuses.
Qed.

Lemma fillGaps_statuses (segs : list Segment) :
  allStatus P segs -> allStatus P (fillGaps segs).
Proof.
  intros H. unfold fillGaps.
  assert (forall filled ptr,
             allStatus P filled ->
             allStatus P (fst (fold_left fillStep segs (filled, ptr)))) as Hfold.
  { induction H as [|seg segs Hseg H IH]; intros filled ptr Hf;
      cbn [fold_left]; [exact Hf|].
    unfold fillStep at 2. apply IH.
    apply Forall_app. split; [| now repeat constructor].
    destruct (Qlt_bool _ _); [| exact Hf].
    apply Forall_app. split; [exact Hf | now repeat constructor]. }
  specialize (Hfold [] 0 (Forall_nil _)).
  destruct (fold_left fillStep segs ([], 0)) as [f p]. cbn [fst] in Hfold.
  destruct (Qlt_bool p 24); [| exact Hfold].
  apply Forall_app. split; [exact Hfold | now repeat constructor].
Qed.

Lemma mergeSegments_statuses (l : list Segment) :
  allStatus P l -> allStatus P (mergeSegments l).
Proof.
  intros H. destruct l as [|cur rest]; [constructor|].
  inversion H as [|? ? Hc Hr]; subst. simpl. clear H.
  revert cur Hc. induction Hr as [|nxt rest Hn Hr IH]; intros cur Hc.
  - now repeat constructor.
  - rewrite mergeLoop_step. destruct (mergeable cur nxt).
    + now apply IH.
    + constructor; [exact Hc | now apply IH].
Qed.

Lemma processTripData_statuses (stops : list Stop) (startDate : Z)
  (key : CalendarDate) (log : DayLog) :
  Forall (fun stop => P (eldStatusOf (type stop))) stops ->
  In (key, log) (processTripData stops startDate) ->
  Forall (fun s => P (status s)) (segments log).
Proof.
  intros Hs Hin. apply processTripData_In in Hin.
  destruct Hin as (raw & Hin & ->). unfold postProcessDay. cbn [segments].
  apply mergeSegments_statuses, fillGaps_statuses, sortByStart_statuses.
  pose proof (fold_expandStop_statuses stops [] startDate Hs (Forall_nil _))
    as H.
  unfold daysStatus in H. rewrite Forall_forall in H. exact (H _ Hin).
Qed.

End StatusInvariant.

Lemma eldStatusOf_cases (label : string) :
  eldStatusOf label = OffDuty \/ eldStatusOf label = Driving
  \/ eldStatusOf label = OnDutyNotDriving
  \/ eldStatusOf label = Member label.
Proof.
  unfold eldStatusOf, ELD_STATUS_MAP, table_get.
  repeat match goal with
         | |- context [String.eqb ?a ?b] => destruct (String.eqb a b)
         end; auto.
  destruct (inherited label); auto.
Qed.

(** A label that names no inherited member is given one of the row
    labels. *)
Lemma eldStatusOf_plain (label : string) :
  inherited label = false -> isRow (eldStatusOf label).
Proof.
  intros H. unfold eldStatusOf. rewrite H.
  destruct (table_get label ELD_STATUS_MAP) as [r|]; eexists; reflexivity.
Qed.

Lemma processTripData_rows (stops : list Stop) (startDate : Z)
  (key : CalendarDate) (log : DayLog) :
  Forall plainLabel stops ->
  In (key, log) (processTripData stops startDate) ->
  allStatus isRow (segments log).
Proof.
  intros Hp Hin.
  apply (processTripData_statuses isRow) with (stops := stops)
    (startDate := startDate) (key := key); [| | exact Hin].
  - exists OffDuty. reflexivity.
  - eapply Forall_impl; [| exact Hp]. intros stop H.
    now apply eldStatusOf_plain.
Qed.

(** ** Whole hours *)

Local Open Scope Q_scope.

Lemma inject_Z_inj (x y : Z) : inject_Z x = inject_Z y -> x = y.
Proof. intros E. injection E. trivial. Qed.

Lemma chain_whole_le (l : list Segment) (x y : Z) :
  chain wholeLt (inject_Z x) l (inject_Z y) -> (x <= y)%Z.
Proof.
  intros H. apply (chain_mono _ _ wholeLt_Qlt) in H. apply chain_le in H.
  exact (proj2 (inject_Z_le x y) H).
Qed.

Lemma chain_whole_bounds (l : list Segment) :
  forall x y : Z,
    chain wholeLt (inject_Z x) l (inject_Z y) ->
    Forall (fun s => exists a e : Z,
                startHour s = inject_Z a /\ endHour s = inject_Z e
                /\ (x <= a < e)%Z /\ (e <= y)%Z) l.
Proof.
  induction l as [|s l IH]; intros x y H; [constructor|].
  simpl in H. destruct H as (Hs & (a & e & Ha & He & Hae) & Hc).
  rewrite He in Hc. pose proof (chain_whole_le _ _ _ Hc) as Hey.
  rewrite Ha in Hs. apply inject_Z_inj in Hs. subst a. constructor.
  - exists x, e. repeat split; try assumption; lia.
  - eapply Forall_impl; [| exact (IH _ _ Hc)]. simpl.
    intros s' (a' & e' & H1 & H2 & H3 & H4). exists a', e'.
    repeat split; try assumption; lia.
Qed.

Lemma Qred_inject_Z (k : Z) : Qred (inject_Z k) = inject_Z k.
Proof.
  unfold Qred, inject_Z.
  pose proof (Z.ggcd_gcd k 1) as Hg.
  pose proof (Z.ggcd_correct_divisors k 1) as Hd.
  destruct (Z.ggcd k 1) as [g [aa bb]]. simpl in *.
  rewrite Z.gcd_1_r in Hg. subst g. destruct Hd as [Ha Hb].
  f_equal; [lia|]. replace bb with 1%Z by lia. reflexivity.
Qed.

Lemma toFixed2_whole (q : Q) (k : Z) :
  q == inject_Z k -> toFixed2 q = inject_Z k.
Proof.
  intros H. pose proof (toFixed2_integral q (ex_intro _ k H)) as Hq.
  rewrite <- (Qred_inject_Z k). unfold toFixed2 in *.
  destruct (Qlt_bool q 0); apply Qred_complete;
    rewrite Qred_correct in Hq; rewrite Hq; exact H.
Qed.

Lemma statusHours_whole (st : StatusValue) (l : list Segment) :
  forall x y : Z,
    chain wholeLt (inject_Z x) l (inject_Z y) ->
    exists k : Z, (0 <= k <= y - x)%Z /\ statusHours st l == inject_Z k.
Proof.
  induction l as [|s l IH]; intros x y H.
  - exists 0%Z. split; [| reflexivity].
    pose proof (chain_whole_le _ _ _ H). lia.
  - simpl in H. destruct H as (Hs & (a & e & Ha & He & Hae) & Hc).
    rewrite He in Hc. rewrite Ha in Hs. apply inject_Z_inj in Hs. subst a.
    destruct (IH _ _ Hc) as (k & Hk & Hh).
    pose proof (statusHours_cons st s l) as Hcons.
    rewrite Hh in Hcons. unfold segmentHours in Hcons.
    rewrite Ha, He in Hcons.
    destruct (status_eqb (status s) st).
    + exists (e - x + k)%Z. split; [lia|].
      rewrite Hcons, inject_Z_plus. unfold Zminus.
      rewrite inject_Z_plus, inject_Z_opp. ring.
    + exists k. split; [lia|]. rewrite Hcons. ring.
Qed.

Lemma summaryField_summarize (st : DutyStatus) (l : list Segment) :
  summaryField st (summarize l) = toFixed2 (statusHours st l).
Proof. rewrite summarize_fields. destruct st; reflexivity. Qed.

(** ** The table's reconciliation on whole values *)

(** On four whole values the reconciled rows add up to 24: either they
    did already, or Off Duty takes up the difference. *)
Lemma mergedSummaryOf_integral (summaryData : Summary) :
  integralSummary summaryData ->
  rowsTotal (mergedSummaryOf summaryData) == 24.
Proof.
  intros ([a Ha] & [b Hb] & [c Hc] & [d Hd]). unfold mergedSummaryOf.
  cbn zeta. unfold rowsTotal.
  cbn [rowOffDuty rowDriving rowOnDutyNotDriving].
  set (off := sumOffDuty summaryData) in *.
  set (sb := sumSleeperBirth summaryData) in *.
  set (dr := sumDriving summaryData) in *.
  set (on := sumOnDutyNotDriving summaryData) in *.
  destruct (Qlt_bool (1 # 100) (Qabs (0 + (off + sb) + dr + on - 24))) eqn:E;
    cbn [rowOffDuty rowDriving rowOnDutyNotDriving].
  - assert (integral (off + sb + (24 - (0 + (off + sb) + dr + on)))) as Hoff.
    { exists (24 - c - d)%Z. unfold Z.sub.
      rewrite !inject_Z_plus, !inject_Z_opp.
      change (inject_Z 24) with 24. lra. }
    rewrite (toFixed2_integral _ Hoff). ring.
  - apply Qlt_bool_false in E. apply Qabs_Qle_condition in E.
    destruct E as [E1 E2].
    assert (0 + (off + sb) + dr + on == inject_Z (a + b + c + d)) as HK
      by (rewrite !inject_Z_plus; lra).
    rewrite HK in *.
    set (K := (a + b + c + d)%Z) in *.
    assert (inject_Z 23 < inject_Z K) as L1
      by (change (inject_Z 23) with 23; lra).
    assert (inject_Z K < inject_Z 25) as L2
      by (change (inject_Z 25) with 25; lra).
    apply (proj2 (inject_Z_lt 23 K)) in L1.
    apply (proj2 (inject_Z_lt K 25)) in L2.
    replace K with 24%Z by lia. reflexivity.
Qed.

(** On any chain every point of the span lies in some segment. *)
Lemma chain_covers_any (l : list Segment) :
  forall p q h, chain anyEnds p l q -> p <= h -> h < q ->
    Exists (fun s => covers s h) l.
Proof.
  induction l as [|s l IH]; intros p q h H Hp Hq; simpl in H.
  - subst. exfalso. lra.
  - destruct H as (Hs & _ & Hc). subst p.
    destruct (Qlt_le_dec h (endHour s)) as [L|L].
    + left. now split.
    + right. exact (IH _ _ h Hc L Hq).
Qed.

(** ** The claims *)

(** C1.  On a day of 25 hours (the clocks go back: New York,
    2025-11-02) a drive from 22:00 to 23:00 and a pickup from 23:00 to
    midnight lie 23, 24 and 25 hours after the day's midnight, so the
    expander records Driving 23..24 and On Duty 24..25.  The gap filler
    clips the second one at 24 and keeps it: the day of the result holds
    the segment On Duty 24..24, whose [startHour] is not below its
    [endHour], and the pickup hour is counted nowhere. *)
Theorem clock_change_day_keeps_empty_segment :
  (forall currentDayStart : Z,
      differenceInHours (currentDayStart + 23 * millisecondsInHour)
        currentDayStart = 23
      /\ differenceInHours (currentDayStart + 24 * millisecondsInHour)
           currentDayStart = 24
      /\ differenceInHours
           (minDate (currentDayStart + 25 * millisecondsInHour)
              (currentDayStart + 25 * millisecondsInHour))
           currentDayStart = 25)
  /\ postProcessDay
       (mkDayLog [ mkSegment Driving 23 24;
                   mkSegment OnDutyNotDriving 24 25 ] emptySummary)
     = mkDayLog [ mkSegment OffDuty 0 23; mkSegment Driving 23 24;
                  mkSegment OnDutyNotDriving 24 24 ]
         (mkSummary 23 0 1 0)
  /\ ~ startHour (mkSegment OnDutyNotDriving 24 24)
       < endHour (mkSegment OnDutyNotDriving 24 24).
Proof.
  split; [| split].
  - intros d. unfold differenceInHours, minDate, millisecondsInHour.
    rewrite Z.min_id.
    replace (d + 23 * 3600000 - d)%Z with (23 * 3600000)%Z by lia.
    replace (d + 24 * 3600000 - d)%Z with (24 * 3600000)%Z by lia.
    replace (d + 25 * 3600000 - d)%Z with (25 * 3600000)%Z by lia.
    repeat split.
  - vm_compute. reflexivity.
  - apply Qlt_irrefl.
Qed.




(** C3.  A drive of an hour and a half from 08:00 ends 9.5 hours after
    midnight and the pickup after it ends 10.5 hours after midnight, yet
    the expander records Driving 8..9 and On Duty 9..10: whole hours, the
    fractions cut off. *)
Theorem fractional_boundary_truncated :
  fst (expandTrip scenarioHalfHour tripStartA)
  = [ (mkDate 2025 8 7,
       mkDayLog [ mkSegment Driving 8 9; mkSegment OnDutyNotDriving 9 10 ]
         emptySummary) ]
  /\ exactHours (addHours tripStartA (3 # 2)) (startOfDay tripStartA)
     == 19 # 2
  /\ exactHours (addHours (addHours tripStartA (3 # 2)) 1)
       (startOfDay tripStartA)
     == 21 # 2
  /\ ~ 9 == 19 # 2.
Proof.
  repeat split; try (vm_compute; reflexivity). discriminate.
Qed.

(** The same on the bundled plan: on 2025-08-08 the pickup of one hour
    and the refuelling of half an hour after it leave a single On Duty
    hour 9..10, and the drive that starts at 10:52 is drawn from 10. *)
Example bundled_plan_second_day :
  dailyData_get (mkDate 2025 8 8)
    (processTripData testRouteData_planned_stops tripStartA)
  = Some (mkDayLog
            [ mkSegment OffDuty 0 5; mkSegment Driving 5 9;
              mkSegment OnDutyNotDriving 9 10; mkSegment Driving 10 21;
              mkSegment OffDuty 21 24 ]
            (mkSummary 8 0 15 1)).
Proof. vm_compute. reflexivity. Qed.

(** C4.  Scenario A: from 2025-08-07T08:00, eleven hours of driving and
    ten of rest give two days, 2025-08-07 with Off Duty 0..8, Driving
    8..19, Off Duty 19..24 and summary 13 / 0 / 11 / 0, and 2025-08-08
    with Off Duty 0..24 and summary 24 / 0 / 0 / 0. *)
Theorem scenario_A :
  processTripData scenarioA tripStartA
  = [ (mkDate 2025 8 7, scenarioA_day1); (mkDate 2025 8 8, scenarioA_day2) ]
  /\ map (fun entry => yyyy_MM_dd (fst entry))
       (processTripData scenarioA tripStartA)
     = [ "2025-08-07"%string; "2025-08-08"%string ]
  /\ format tripStartA = mkDate 2025 8 7
  /\ (tripStartA = startOfDay tripStartA + 8 * millisecondsInHour)%Z.
Proof.
  repeat split; vm_compute; reflexivity.
Qed.




(** C6, as stated, fails: without activities the result for
    2025-08-07T08:00 is not one day holding Off Duty 0..24. *)
Lemma empty_trip_is_not_one_day :
  ~ exists (key : CalendarDate) (log : DayLog),
      processTripData [] tripStartA = [ (key, log) ]
      /\ segments log = [ mkSegment OffDuty 0 24 ].
Proof.
  intros (key & log & H & _). discriminate H.
Qed.

(** C6, amended.  Without activities the result has no day at all,
    whatever the trip start. *)
Theorem processTripData_empty (startDate : Z) :
  processTripData [] startDate = [].
Proof. reflexivity. Qed.

(** C7.  The label "constructor" is not a key of the status table, yet
    the lookup answers with the member every object inherits under that
    name, so the default is not taken: a stop of two hours so labelled,
    from 2025-08-07T08:00, is not Off Duty and stays apart from the Off
    Duty time on both sides of it. *)
Theorem inherited_label_is_not_off_duty :
  table_get "constructor" ELD_STATUS_MAP = None
  /\ eldStatusOf "constructor" = Member "constructor"
  /\ eldStatusOf "constructor" <> OffDuty
  /\ processTripData [ mkStop "constructor" 2 ] tripStartA
     = [ (mkDate 2025 8 7,
          mkDayLog [ mkSegment OffDuty 0 8;
                     mkSegment (Member "constructor") 8 10;
                     mkSegment OffDuty 10 24 ]
            (mkSummary 22 0 0 0)) ].
Proof.
  repeat split; try (vm_compute; reflexivity). discriminate.
Qed.

(** What holds of the other labels: one that is neither a key of the
    table nor the name of an inherited member is classified Off Duty, and
    a trip of such stops and of rests is Off Duty 0..24 on each of its
    days. *)
Lemma plain_unknown_label_off_duty (label : string) :
  table_get label ELD_STATUS_MAP = None -> inherited label = false ->
  eldStatusOf label = OffDuty
  /\ (forall (plannedStops : list Stop) (startDate : Z)
        (key : CalendarDate) (log : DayLog),
         Forall (fun stop => type stop = label
                             \/ type stop = "Daily Rest"%string)
           plannedStops ->
         In (key, log) (processTripData plannedStops startDate) ->
         segments log = [ mkSegment OffDuty 0 24 ]).
Proof.
  intros Hnone Hplain.
  assert (eldStatusOf label = OffDuty) as Hoff
    by (unfold eldStatusOf; now rewrite Hnone, Hplain).
  split; [exact Hoff |].
  intros plannedStops startDate key log Hall Hin.
  apply processTripData_In in Hin. destruct Hin as (raw & Hin & ->).
  destruct (postProcessDay_any raw) as [Hc Hs].
  apply single_off_run; [| exact Hs | exact Hc].
  unfold postProcessDay. cbn [segments].
  apply mergeSegments_off, fillGaps_off, sortByStart_off.
  assert (daysOffDuty (fst (expandTrip plannedStops startDate))) as Hd.
  { apply fold_expandStop_off; [| constructor].
    eapply Forall_impl; [| exact Hall].
    intros stop [-> | ->]; [exact Hoff | reflexivity]. }
  unfold daysOffDuty in Hd. rewrite Forall_forall in Hd.
  exact (Hd _ Hin).
Qed.

(** Scenario C on a trip with other statuses: the hour of the unknown
    label and the three hours of rest after it come out as one Off Duty
    run 10..14. *)
Example scenario_C :
  processTripData scenarioC tripStartA
  = [ (mkDate 2025 8 7,
       mkDayLog
         [ mkSegment OffDuty 0 8; mkSegment Driving 8 10;
           mkSegment OffDuty 10 14; mkSegment Driving 14 15;
           mkSegment OffDuty 15 24 ]
         (mkSummary 21 0 3 0)) ].
Proof. vm_compute. reflexivity. Qed.

(** C8.  A stop whose duration is 0 leaves the expander's state, days
    and clock, as it found it, so the result is the one of the trip
    without that stop; and every day of the result still links up exactly
    from 0 to 24, each segment starting where the one before it ended,
    so that every hour of [0,24) lies in a segment, and with durations
    that are not negative in no hour outside [0,24). *)
Theorem zero_duration_stop (before after : list Stop) (label : string)
  (d : Q) (startDate : Z) :
  d == 0 ->
  (forall st : DailyData * Z, expandStop st (mkStop label d) = st)
  /\ expandTrip (before ++ mkStop label d :: after) startDate
     = expandTrip (before ++ after) startDate
  /\ processTripData (before ++ mkStop label d :: after) startDate
     = processTripData (before ++ after) startDate
  /\ (forall (key : CalendarDate) (log : DayLog),
        In (key, log)
          (processTripData (before ++ mkStop label d :: after) startDate) ->
        chain anyEnds 0 (segments log) 24
        /\ (forall h : Q,
               0 <= h /\ h < 24 ->
               Exists (fun s => covers s h) (segments log))
        /\ (Forall nonNegative before -> Forall nonNegative after ->
            forall h : Q,
              Exists (fun s => covers s h) (segments log) ->
              0 <= h /\ h < 24)).
Proof.
  intros Hd.
  assert (forall st : DailyData * Z, expandStop st (mkStop label d) = st)
    as Hstep.
  { intros [dd t]. unfold expandStop. cbn [type duration_hours].
    assert (addHours t d = t) as ->.
    { rewrite (addHours_whole t 0 d) by exact Hd. lia. }
    rewrite splitAcrossDays_done by lia. reflexivity. }
  assert (expandTrip (before ++ mkStop label d :: after) startDate
          = expandTrip (before ++ after) startDate) as Hexp.
  { unfold expandTrip. rewrite !fold_left_app. cbn [fold_left].
    now rewrite Hstep. }
  split; [exact Hstep | split; [exact Hexp | split]].
  - unfold processTripData. now rewrite Hexp.
  - intros key log Hin.
    assert (chain anyEnds 0 (segments log) 24) as Hc.
    { pose proof Hin as Hin'. apply processTripData_In in Hin'.
      destruct Hin' as (raw & _ & ->). apply postProcessDay_any. }
    split; [exact Hc | split].
    + intros h [H0 H24]. exact (chain_covers_any _ _ _ h Hc H0 H24).
    + intros Hb Ha h Hex.
      assert (Forall nonNegative (before ++ mkStop label d :: after)) as Hs.
      { apply Forall_app. split; [exact Hb|]. constructor; [| exact Ha].
        unfold nonNegative. cbn [duration_hours]. rewrite Hd.
        apply Qle_refl. }
      pose proof (processTripData_whole _ _ _ _ Hs Hin) as Hw.
      apply (chain_mono _ _ wholeLt_Qlt) in Hw.
      exact (proj2 (chain_covers _ _ _ h Hw) Hex).
Qed.

Lemma zero_duration_stop_witness :
  (forall st : DailyData * Z, expandStop st (mkStop "Pickup Stop" 0) = st)
  /\ expandTrip
       (scenarioB_before ++ mkStop "Pickup Stop" 0 :: scenarioB_after)
       tripStartA
     = expandTrip (scenarioB_before ++ scenarioB_after) tripStartA
  /\ processTripData
       (scenarioB_before ++ mkStop "Pickup Stop" 0 :: scenarioB_after)
       tripStartA
     = processTripData (scenarioB_before ++ scenarioB_after) tripStartA
  /\ chain anyEnds 0
       [ mkSegment OffDuty 0 8; mkSegment Driving 8 10;
         mkSegment OffDuty 10 24 ] 24.
Proof.
  destruct (zero_duration_stop scenarioB_before scenarioB_after
              "Pickup Stop" 0 tripStartA (Qeq_refl 0))
    as (H1 & H2 & H3 & H4).
  split; [exact H1 | split; [exact H2 | split; [exact H3 |]]].
  apply (H4 (mkDate 2025 8 7)
            (mkDayLog [ mkSegment OffDuty 0 8; mkSegment Driving 8 10;
                        mkSegment OffDuty 10 24 ]
               (mkSummary 22 0 2 0))).
  vm_compute. left. reflexivity.
Defined.

(** C9.  Merging is idempotent: merging a merged sequence returns it
    unchanged, whatever sequence one starts from. *)
Theorem mergeSegments_idempotent (s : list Segment) :
  mergeSegments (mergeSegments s) = mergeSegments s.
Proof.
  pose proof (mergeSegments_separated s) as H.
  destruct (mergeSegments s) as [|a l]; [reflexivity|].
  simpl. now apply mergeLoop_fixed.
Qed.

(** C10.  In every day of the result the merged segments link up exactly
    (each [endHour] is the next [startHour], from 0 to 24) and any two
    neighbours carry different statuses. *)
Theorem neighbours_differ_in_status (plannedStops : list Stop)
  (startDate : Z) (key : CalendarDate) (log : DayLog) :
  In (key, log) (processTripData plannedStops startDate) ->
  chain anyEnds 0 (segments log) 24 /\ alternating (segments log).
Proof.
  intros Hin. apply processTripData_In in Hin.
  destruct Hin as (raw & _ & ->).
  destruct (postProcessDay_any raw) as [Hc Hs].
  split; [exact Hc | exact (chain_separated_alternating _ _ _ _ Hc Hs)].
Qed.

Lemma neighbours_differ_in_status_witness :
  chain anyEnds 0 (segments scenarioA_day1) 24
  /\ alternating (segments scenarioA_day1).
Proof.
  apply (neighbours_differ_in_status scenarioA tripStartA (mkDate 2025 8 7)).
  vm_compute. left. reflexivity.
Defined.

(** ** More on the gap filler and the merger *)

Local Open Scope Q_scope.

Lemma ascendingQ_le (segs : list Segment) :
  forall lo, ascendingQ lo segs -> lo <= 24.
Proof.
  induction segs as [|s l IH]; intros lo H; simpl in H; [exact H|].
  destruct H as (H1 & H2 & H3). apply IH in H3. lra.
Qed.

Lemma ascendingQ_lower (segs : list Segment) (lo lo' : Q) :
  lo' <= lo -> ascendingQ lo segs -> ascendingQ lo' segs.
Proof.
  destruct segs as [|s l]; simpl; intros Hle H; [lra|].
  destruct H as (H1 & H2 & H3). repeat split; try assumption. lra.
Qed.

Lemma Math_min_24_le (e : Q) : e <= 24 -> Math_min 24 e == e.
Proof.
  intros H. unfold Math_min. destruct (Qlt_bool e 24) eqn:E; [reflexivity|].
  apply Qlt_bool_false in E. lra.
Qed.

Lemma Math_max_ge (p a : Q) : p <= a -> Math_max p a == a.
Proof.
  intros H. unfold Math_max. destruct (Qlt_bool p a) eqn:E; [reflexivity|].
  apply Qlt_bool_false in E. lra.
Qed.

Lemma status_eqb_refl (st : StatusValue) : status_eqb st st = true.
Proof. now apply status_eqb_eq. Qed.

Lemma status_eqb_neq (a b : StatusValue) : a <> b -> status_eqb a b = false.
Proof.
  intros H. destruct (status_eqb a b) eqn:E; [|reflexivity].
  apply status_eqb_eq in E. contradiction.
Qed.

Lemma statusHours_snoc (st : StatusValue) (l : list Segment) (s : Segment) :
  statusHours st (l ++ [s])
  == statusHours st l
     + (if status_eqb (status s) st then segmentHours s else 0).
Proof.
  rewrite statusHours_app, statusHours_cons.
  assert (statusHours st [] == 0) as -> by reflexivity. ring.
Qed.

(** One step of the gap filler on a segment that starts at or after the
    pointer: the chain grows up to the segment's end, and the hours of
    every status grow by those of the segment, Off Duty also by the gap. *)
Lemma fillStep_ascending (filled : list Segment) (ptr : Q) (seg : Segment) :
  chain Qlt 0 filled ptr ->
  ptr <= startHour seg -> startHour seg < endHour seg -> endHour seg <= 24 ->
  chain Qlt 0 (fst (fillStep (filled, ptr) seg))
    (snd (fillStep (filled, ptr) seg))
  /\ snd (fillStep (filled, ptr) seg) == endHour seg
  /\ forall st,
       statusHours st (fst (fillStep (filled, ptr) seg))
       == statusHours st filled
          + (if status_eqb OffDuty st then startHour seg - ptr else 0)
          + (if status_eqb (status seg) st then segmentHours seg else 0).
Proof.
  intros Hc Hlo Hse He. unfold fillStep. cbn [fst snd].
  pose proof (Math_max_ge _ _ Hlo) as Hmax.
  pose proof (Math_min_24_le _ He) as Hmin.
  split; [| split; [exact Hmin |]].
  - eapply chain_app with (q := Math_max ptr (startHour seg)).
    + destruct (Qlt_bool ptr (Math_max ptr (startHour seg))) eqn:E.
      * eapply chain_app; [exact Hc|]. simpl. repeat split.
        now apply Qlt_bool_iff.
      * unfold Math_max in *. destruct (Qlt_bool ptr (startHour seg)) eqn:E'.
        -- congruence.
        -- exact Hc.
    + simpl. repeat split. lra.
  - intros st. rewrite statusHours_snoc. cbn [status].
    unfold segmentHours at 1. cbn [startHour endHour].
    destruct (Qlt_bool ptr (Math_max ptr (startHour seg))) eqn:E.
    + rewrite statusHours_snoc. cbn [status].
      unfold segmentHours at 1. cbn [startHour endHour].
      destruct (status_eqb OffDuty st), (status_eqb (status seg) st);
        unfold segmentHours; lra.
    + apply Qlt_bool_false in E.
      destruct (status_eqb OffDuty st), (status_eqb (status seg) st);
        unfold segmentHours; lra.
Qed.

Lemma fill_fold_ascending (segs : list Segment) :
  forall filled ptr,
    chain Qlt 0 filled ptr -> ascendingQ ptr segs ->
    chain Qlt 0 (fst (fold_left fillStep segs (filled, ptr)))
      (snd (fold_left fillStep segs (filled, ptr)))
    /\ snd (fold_left fillStep segs (filled, ptr)) <= 24
    /\ forall st,
         statusHours st (fst (fold_left fillStep segs (filled, ptr)))
         + (if status_eqb OffDuty st
            then 24 - snd (fold_left fillStep segs (filled, ptr)) else 0)
         == statusHours st filled + statusHours st segs
            + (if status_eqb OffDuty st
               then 24 - ptr - sumQ (map segmentHours segs) else 0).
Proof.
  induction segs as [|seg segs IH]; intros filled ptr Hc Ha; cbn [fold_left].
  - cbn [fst snd]. simpl in Ha. split; [exact Hc | split; [exact Ha |]].
    intros st. assert (statusHours st [] == 0) as Hnil by reflexivity.
    assert (sumQ (map segmentHours []) == 0) as Hs by reflexivity.
    destruct (status_eqb OffDuty st); lra.
  - simpl in Ha. destruct Ha as (Hlo & Hse & Hrest).
    pose proof (ascendingQ_le _ _ Hrest) as He.
    destruct (fillStep_ascending filled ptr seg Hc Hlo Hse He)
      as (Hc' & Hp' & Hh').
    destruct (fillStep (filled, ptr) seg) as [f' p'] eqn:E.
    cbn [fst snd] in *.
    assert (ascendingQ p' segs) as Ha'
      by (eapply ascendingQ_lower; [| exact Hrest]; lra).
    destruct (IH f' p' Hc' Ha') as (H1 & H2 & H3).
    split; [exact H1 | split; [exact H2 |]].
    intros st. rewrite (H3 st), (Hh' st), statusHours_cons.
    assert (sumQ (map segmentHours (seg :: segs))
            == segmentHours seg + sumQ (map segmentHours segs)) as Hs
      by reflexivity.
    assert (segmentHours seg == endHour seg - startHour seg) as Hd
      by reflexivity.
    destruct (status_eqb OffDuty st), (status_eqb (status seg) st); lra.
Qed.

(** X1.  The gap filler on a day of ascending, non-overlapping segments
    with any rational hours: the result is made of segments of positive
    length linking up from 0 to 24; every status other than Off Duty
    keeps its hours, and Off Duty gains exactly the hours the day's
    segments left uncovered. *)
Theorem fillGaps_adds_only_uncovered_off_duty (segs : list Segment) :
  ascendingQ 0 segs ->
  chain Qlt 0 (fillGaps segs) 24
  /\ (forall st : StatusValue, st <> OffDuty ->
        statusHours st (fillGaps segs) == statusHours st segs)
  /\ statusHours OffDuty (fillGaps segs)
     == statusHours OffDuty segs + (24 - sumQ (map segmentHours segs)).
Proof.
  intros Ha. unfold fillGaps.
  destruct (fill_fold_ascending segs [] 0 eq_refl Ha) as (Hc & Hp & Hh).
  destruct (fill_fold_any segs [] 0 eq_refl (or_introl eq_refl)) as [_ Hq].
  destruct (fold_left fillStep segs ([], 0)) as [f p]. cbn [fst snd] in *.
  assert (forall st, statusHours st [] == 0) as Hnil by reflexivity.
  destruct (Qlt_bool p 24) eqn:E.
  - apply Qlt_bool_iff in E. split; [| split].
    + eapply chain_app; [exact Hc|]. simpl. repeat split. exact E.
    + intros st Hst. rewrite statusHours_snoc. cbn [status].
      pose proof (Hh st) as H.
      rewrite (status_eqb_neq OffDuty st) in * by congruence.
      rewrite Hnil in H. lra.
    + rewrite statusHours_snoc. cbn [status].
      pose proof (Hh OffDuty) as H. cbn [status_eqb row_eqb] in H |- *.
      rewrite Hnil in H. unfold segmentHours at 1. cbn [startHour endHour].
      lra.
  - destruct Hq as [Hq | ->];
      [apply Qlt_bool_iff in Hq; congruence |].
    split; [exact Hc | split].
    + intros st Hst. pose proof (Hh st) as H.
      rewrite (status_eqb_neq OffDuty st) in H by congruence.
      rewrite Hnil in H. lra.
    + pose proof (Hh OffDuty) as H. cbn [status_eqb row_eqb] in H.
      rewrite Hnil in H. lra.
Qed.

Lemma fillGaps_adds_only_uncovered_off_duty_witness :
  chain Qlt 0
    (fillGaps [ mkSegment Driving (17 # 2) (41 # 4);
                mkSegment OnDutyNotDriving (41 # 4) 11 ]) 24
  /\ (forall st : StatusValue, st <> OffDuty ->
        statusHours st
          (fillGaps [ mkSegment Driving (17 # 2) (41 # 4);
                      mkSegment OnDutyNotDriving (41 # 4) 11 ])
        == statusHours st
             [ mkSegment Driving (17 # 2) (41 # 4);
               mkSegment OnDutyNotDriving (41 # 4) 11 ])
  /\ statusHours OffDuty
       (fillGaps [ mkSegment Driving (17 # 2) (41 # 4);
                   mkSegment OnDutyNotDriving (41 # 4) 11 ])
     == statusHours OffDuty
          [ mkSegment Driving (17 # 2) (41 # 4);
            mkSegment OnDutyNotDriving (41 # 4) 11 ]
        + (24 - sumQ (map segmentHours
                        [ mkSegment Driving (17 # 2) (41 # 4);
                          mkSegment OnDutyNotDriving (41 # 4) 11 ])).
Proof.
  apply fillGaps_adds_only_uncovered_off_duty.
  simpl. repeat split; discriminate.
Defined.

(** X2.  Whatever list it is given (unsorted, overlapping, beyond 24),
    the gap filler returns a list that is not empty, starts at hour 0,
    ends at hour 24, and in which every segment starts exactly where the
    one before it ended. *)
Theorem fillGaps_always_links_0_to_24 (segs : list Segment) :
  fillGaps segs <> []
  /\ chain anyEnds 0 (fillGaps segs) 24
  /\ (exists first rest, fillGaps segs = first :: rest /\ startHour first = 0)
  /\ (exists front final,
         fillGaps segs = front ++ [final] /\ endHour final = 24).
Proof.
  pose proof (fillGaps_any segs) as Hc.
  assert (fillGaps segs <> []) as Hne.
  { intros E. rewrite E in Hc. simpl in Hc. discriminate. }
  split; [exact Hne | split; [exact Hc | split]].
  - destruct (fillGaps segs) as [|first rest]; [contradiction|].
    exists first, rest. split; [reflexivity|]. simpl in Hc. tauto.
  - destruct (exists_last Hne) as (front & final & E).
    exists front, final. split; [exact E|]. rewrite E in Hc.
    clear E Hne. revert Hc. generalize 0.
    induction front as [|s front IH]; intros p Hc; simpl in Hc.
    + destruct Hc as (_ & _ & Hc). now symmetry.
    + destruct Hc as (_ & _ & Hc). eauto.
Qed.

Lemma mergeLoop_statusHours (st : StatusValue) (rest : list Segment) :
  forall cur p q,
    chain anyEnds p (cur :: rest) q ->
    statusHours st (mergeLoop cur rest []) == statusHours st (cur :: rest).
Proof.
  induction rest as [|nxt rest IH]; intros cur p q Hc.
  - reflexivity.
  - rewrite mergeLoop_step. destruct Hc as (Hs & _ & Hn & _ & Hc).
    destruct (mergeable cur nxt) eqn:E.
    + assert (chain anyEnds p
                (mkSegment (status cur) (startHour cur) (endHour nxt) :: rest)
                q) as Hc'
        by (simpl; unfold anyEnds; repeat split; assumption).
      rewrite (IH _ p q Hc').
      unfold mergeable in E. apply andb_true_iff in E. destruct E as [E _].
      apply status_eqb_eq in E.
      rewrite !statusHours_cons. cbn [status]. rewrite <- E.
      assert (segmentHours
                (mkSegment (status cur) (startHour cur) (endHour nxt))
              == segmentHours cur + segmentHours nxt) as Hh.
      { unfold segmentHours. cbn [startHour endHour]. rewrite Hn. ring. }
      destruct (status_eqb (status cur) st); lra.
    + assert (chain anyEnds (endHour cur) (nxt :: rest) q) as Hc'
        by (simpl; unfold anyEnds; repeat split; assumption).
      rewrite statusHours_cons, (IH nxt (endHour cur) q Hc').
      rewrite (statusHours_cons st cur). reflexivity.
Qed.

(** X3.  On segments that link up exactly (each end the next start) the
    merger keeps the hours of every status, so a summary taken after
    merging counts the same hours as one taken before; and it never
    returns more segments than it was given. *)
Theorem mergeSegments_keeps_status_hours (l : list Segment) (p q : Q)
  (st : StatusValue) :
  chain anyEnds p l q ->
  statusHours st (mergeSegments l) == statusHours st l
  /\ (List.length (mergeSegments l) <= List.length l)%nat.
Proof.
  intros Hc. split.
  - destruct l as [|cur rest]; [reflexivity|].
    exact (mergeLoop_statusHours st rest cur p q Hc).
  - clear. destruct l as [|cur rest]; [apply le_n|]. simpl.
    revert cur. induction rest as [|nxt rest IH]; intros cur.
    + apply le_n.
    + rewrite mergeLoop_step. destruct (mergeable cur nxt).
      * etransitivity; [apply IH|]. simpl. lia.
      * simpl. apply le_n_S. apply IH.
Qed.

Lemma mergeSegments_keeps_status_hours_witness :
  statusHours OffDuty
    (mergeSegments [ mkSegment OffDuty 0 (17 # 2);
                     mkSegment OffDuty (17 # 2) 11;
                     mkSegment Driving 11 24 ])
  == statusHours OffDuty
       [ mkSegment OffDuty 0 (17 # 2); mkSegment OffDuty (17 # 2) 11;
         mkSegment Driving 11 24 ]
  /\ (List.length
        (mergeSegments [ mkSegment OffDuty 0 (17 # 2);
                         mkSegment OffDuty (17 # 2) 11;
                         mkSegment Driving 11 24 ])
      <= List.length
           [ mkSegment OffDuty 0 (17 # 2); mkSegment OffDuty (17 # 2) 11;
             mkSegment Driving 11 24 ])%nat.
Proof.
  apply (mergeSegments_keeps_status_hours _ 0 24).
  simpl. unfold anyEnds. repeat split.
Defined.

(** X4.  The merger leaves a list as it is exactly when no two
    neighbours of the list pass the merge test (same status and ends
    less than 0.001 apart). *)
Theorem mergeSegments_fixed_iff_separated (l : list Segment) :
  mergeSegments l = l <-> separated l.
Proof.
  split.
  - intros E. rewrite <- E. apply mergeSegments_separated.
  - intros H. destruct l as [|cur rest]; [reflexivity|].
    now apply mergeLoop_fixed.
Qed.

(** ** The days of the result *)

Local Open Scope Z_scope.

Lemma dailyData_get_In (key : CalendarDate) (dd : DailyData) :
  In key (map fst dd) -> dailyData_get key dd <> None.
Proof.
  induction dd as [|[k log] dd IH]; simpl; [tauto|].
  intros [-> | H].
  - replace (date_eqb key key) with true
      by (symmetry; now apply date_eqb_eq). discriminate.
  - destruct (date_eqb k key); [discriminate | auto].
Qed.

Lemma dailyData_get_notIn (key : CalendarDate) (dd : DailyData) :
  ~ In key (map fst dd) -> dailyData_get key dd = None.
Proof.
  induction dd as [|[k log] dd IH]; simpl; [reflexivity|].
  intros H. destruct (date_eqb k key) eqn:E.
  - apply date_eqb_eq in E. tauto.
  - apply IH. tauto.
Qed.

Lemma pushSegment_keys (key : CalendarDate) (seg : Segment) (dd : DailyData) :
  map fst (pushSegment key seg dd) = map fst dd.
Proof.
  induction dd as [|[k log] dd IH]; simpl; [reflexivity|].
  destruct (date_eqb k key); simpl; [reflexivity | now rewrite IH].
Qed.

Lemma dayKeys_S (first : Z) (count : nat) :
  dayKeys first (S count)
  = dayKeys first count ++ [civil_from_days (first + Z.of_nat count)].
Proof. unfold dayKeys. rewrite seq_S, map_app. reflexivity. Qed.

Lemma In_dayKeys (first n : Z) (count : nat) :
  In (civil_from_days n) (dayKeys first count)
  <-> first <= n < first + Z.of_nat count.
Proof.
  unfold dayKeys. rewrite in_map_iff. split.
  - intros (i & E & Hi). apply civil_from_days_inj in E.
    apply in_seq in Hi. lia.
  - intros H. exists (Z.to_nat (n - first)). split.
    + f_equal. lia.
    + apply in_seq. lia.
Qed.

Lemma dayKeys_NoDup (first : Z) (count : nat) : NoDup (dayKeys first count).
Proof.
  induction count as [|count IH]; [constructor|].
  rewrite dayKeys_S.
  assert (~ In (civil_from_days (first + Z.of_nat count))
            (dayKeys first count)) as Hnot
    by (rewrite In_dayKeys; lia).
  revert IH Hnot. generalize (civil_from_days (first + Z.of_nat count)).
  generalize (dayKeys first count). clear.
  induction l as [|x l IHl]; intros c Hl Hc; simpl.
  - constructor; [tauto | constructor].
  - inversion Hl; subst. constructor.
    + rewrite in_app_iff. simpl in *. intuition congruence.
    + apply IHl; [assumption|]. simpl in Hc. tauto.
Qed.

Lemma ensureDay_keys (first n : Z) (count : nat) (dd : DailyData) :
  first <= n ->
  map fst dd = dayKeys first count ->
  Z.of_nat count = n - first + 1 \/ Z.of_nat count = n - first ->
  map fst (ensureDay (civil_from_days n) dd)
  = dayKeys first (Z.to_nat (n - first + 1)).
Proof.
  intros Hfirst Hk [Hc | Hc]; unfold ensureDay.
  - destruct (dailyData_get (civil_from_days n) dd) eqn:E.
    + rewrite Hk. f_equal. lia.
    + exfalso. revert E. apply dailyData_get_In. rewrite Hk.
      apply In_dayKeys. lia.
  - rewrite dailyData_get_notIn
      by (rewrite Hk, In_dayKeys; lia).
    rewrite map_app, Hk. simpl.
    replace (Z.to_nat (n - first + 1)) with (S count) by lia.
    rewrite dayKeys_S. do 3 f_equal. lia.
Qed.

Lemma splitAcrossDays_keys (first : Z) (fuel : nat) (st : StatusValue) :
  forall t e dd count,
    (Z.to_nat (e / millisecondsInDay - t / millisecondsInDay + 1)
     <= fuel)%nat ->
    t < e ->
    first <= t / millisecondsInDay ->
    map fst dd = dayKeys first count ->
    Z.of_nat count = t / millisecondsInDay - first + 1
    \/ Z.of_nat count = t / millisecondsInDay - first ->
    map fst (splitAcrossDays fuel st t e dd)
    = dayKeys first
        (Z.to_nat ((e - 1) / millisecondsInDay - first + 1)).
Proof.
  induction fuel as [|fuel IH]; intros t e dd count Hf Hte Hfirst Hk Hc.
  - exfalso. unfold millisecondsInDay in Hf.
    assert (t / 86400000 <= e / 86400000) by (apply Z.div_le_mono; lia).
    lia.
  - rewrite splitAcrossDays_step by exact Hte. cbv zeta.
    set (n := t / millisecondsInDay) in *.
    set (next := (n + 1) * millisecondsInDay).
    set (dd2 := if _ <? _ then _ else _).
    assert (map fst dd2 = dayKeys first (Z.to_nat (n - first + 1))) as Hk2.
    { subst dd2. destruct (_ <? _); [rewrite pushSegment_keys|];
        now apply (ensureDay_keys first n count). }
    assert (n * 86400000 <= t < next) as Hn
      by (subst next n; unfold millisecondsInDay;
          Z.div_mod_to_equations; lia).
    destruct (Z_lt_le_dec next e) as [L|L].
    + apply (IH _ _ _ (Z.to_nat (n - first + 1))); try assumption.
      * subst next n. unfold millisecondsInDay in *.
        rewrite Z.div_mul by discriminate. lia.
      * subst next. unfold millisecondsInDay.
        rewrite Z.div_mul by discriminate. lia.
      * right. subst next. unfold millisecondsInDay.
        rewrite Z.div_mul by discriminate. lia.
    + rewrite splitAcrossDays_done by exact L. rewrite Hk2. do 2 f_equal.
      subst next. unfold millisecondsInDay in *.
      Z.div_mod_to_equations; lia.
Qed.

Lemma fold_expandStop_keys (startDate : Z) (stops : list Stop) :
  forall dd t,
    Forall nonNegative stops -> startDate <= t ->
    map fst dd
    = dayKeys (startDate / millisecondsInDay) (daysSpanned startDate t) ->
    map fst (fst (fold_left expandStop stops (dd, t)))
    = dayKeys (startDate / millisecondsInDay)
        (daysSpanned startDate (snd (fold_left expandStop stops (dd, t)))).
Proof.
  induction stops as [|stop stops IH]; intros dd t Hs Ht Hk; cbn [fold_left].
  - exact Hk.
  - inversion Hs as [|? ? Hstop Hrest]; subst. unfold expandStop at 2 4.
    pose proof (addHours_ge t _ Hstop) as Hge.
    set (e := addHours t (duration_hours stop)) in *.
    apply IH; [exact Hrest | lia |].
    destruct (Z_lt_le_dec t e) as [L|L].
    + unfold daysSpanned at 1.
      replace (e <=? startDate) with false by (symmetry; apply Z.leb_gt; lia).
      apply (splitAcrossDays_keys _ _ _ _ _ _ (daysSpanned startDate t));
        [unfold daysTouched; lia | exact L
        | unfold millisecondsInDay; apply Z.div_le_mono; lia | exact Hk |].
      unfold daysSpanned. destruct (t <=? startDate) eqn:E.
      * apply Z.leb_le in E. replace t with startDate by lia.
        right. simpl. lia.
      * apply Z.leb_gt in E. unfold millisecondsInDay.
        assert (startDate / 86400000 <= (t - 1) / 86400000)
          by (apply Z.div_le_mono; lia).
        Z.div_mod_to_equations; lia.
    + replace e with t by lia. rewrite splitAcrossDays_done by lia.
      exact Hk.
Qed.



(** ** Whole hours in the result *)

Local Open Scope Q_scope.

(** X6.  With durations that are not negative, every segment of the
    result starts and ends on a whole hour of the day: its [startHour]
    and [endHour] are integers [a] and [e] with [0 <= a <= e <= 24]. *)
Theorem result_hours_are_whole (plannedStops : list Stop) (startDate : Z)
  (key : CalendarDate) (log : DayLog) :
  Forall nonNegative plannedStops ->
  In (key, log) (processTripData plannedStops startDate) ->
  Forall (fun s => exists a e : Z,
              startHour s = inject_Z a /\ endHour s = inject_Z e
              /\ (0 <= a <= e)%Z /\ (e <= 24)%Z) (segments log).
Proof.
  intros Hs Hin.
  eapply Forall_impl;
    [| exact (chain_whole_bounds _ 0 24
                (processTripData_whole _ _ _ _ Hs Hin))].
  intros s (a & e & Ha & He & Hae & H24). exists a, e.
  repeat split; try assumption; lia.
Qed.

Lemma result_hours_are_whole_witness :
  Forall (fun s => exists a e : Z,
              startHour s = inject_Z a /\ endHour s = inject_Z e
              /\ (0 <= a <= e)%Z /\ (e <= 24)%Z)
    [ mkSegment OffDuty 0 5; mkSegment Driving 5 9;
      mkSegment OnDutyNotDriving 9 10; mkSegment Driving 10 21;
      mkSegment OffDuty 21 24 ].
Proof.
  apply (result_hours_are_whole testRouteData_planned_stops tripStartA
           (mkDate 2025 8 8)
           (mkDayLog
              [ mkSegment OffDuty 0 5; mkSegment Driving 5 9;
                mkSegment OnDutyNotDriving 9 10; mkSegment Driving 10 21;
                mkSegment OffDuty 21 24 ]
              (mkSummary 8 0 15 1))).
  - repeat constructor; discriminate.
  - vm_compute. right. left. reflexivity.
Defined.

(** X9.  With durations that are not negative, each of the four summary
    values of every day of the result is a whole number of hours between
    0 and 24. *)
Theorem summary_values_are_whole (plannedStops : list Stop) (startDate : Z)
  (key : CalendarDate) (log : DayLog) (st : DutyStatus) :
  Forall nonNegative plannedStops ->
  In (key, log) (processTripData plannedStops startDate) ->
  exists k : Z, (0 <= k <= 24)%Z /\ summaryField st (summary log) = inject_Z k.
Proof.
  intros Hs Hin.
  pose proof (processTripData_whole _ _ _ _ Hs Hin) as Hw.
  apply processTripData_In in Hin. destruct Hin as (raw & _ & ->).
  unfold postProcessDay in *. cbn [segments summary] in *.
  destruct (statusHours_whole st _ 0 24 Hw) as (k & Hk & Hh).
  exists k. split; [lia|].
  rewrite summaryField_summarize. now apply toFixed2_whole.
Qed.

Lemma summary_values_are_whole_witness :
  exists k : Z,
    (0 <= k <= 24)%Z
    /\ summaryField Driving (summary scenarioA_day1) = inject_Z k.
Proof.
  apply (summary_values_are_whole scenarioA tripStartA (mkDate 2025 8 7)).
  - repeat constructor; discriminate.
  - vm_compute. left. reflexivity.
Defined.



(** X7.  No segment of the result ever carries the status Sleeper Birth,
    whatever the stops and their labels, and the Sleeper Birth value of
    every day's summary is 0. *)
Theorem sleeper_birth_never_occurs (plannedStops : list Stop) (startDate : Z)
  (key : CalendarDate) (log : DayLog) :
  In (key, log) (processTripData plannedStops startDate) ->
  Forall (fun s => status s <> SleeperBirth) (segments log)
  /\ sumSleeperBirth (summary log) = 0.
Proof.
  intros Hin.
  assert (Forall (fun s => status s <> SleeperBirth) (segments log)) as Hno.
  { apply (processTripData_statuses (fun st => st <> SleeperBirth))
      with (stops := plannedStops) (startDate := startDate) (key := key);
      [discriminate | | exact Hin].
    apply Forall_forall. intros stop _.
    destruct (eldStatusOf_cases (type stop)) as [E | [E | [E | E]]];
      rewrite E; discriminate. }
  split; [exact Hno|].
  apply processTripData_In in Hin. destruct Hin as (raw & _ & ->).
  unfold postProcessDay in *. cbn [segments summary] in *.
  rewrite summarize_fields. cbn [sumSleeperBirth].
  unfold statusHours.
  replace (filter (fun s => status_eqb (status s) SleeperBirth)
             (mergeSegments (fillGaps (sortByStart (segments raw)))))
    with (@nil Segment); [reflexivity|].
  symmetry. induction Hno as [|s l Hs Hl IH]; [reflexivity|].
  cbn [filter]. rewrite status_eqb_neq by exact Hs. exact IH.
Qed.

Lemma sleeper_birth_never_occurs_witness :
  Forall (fun s => status s <> SleeperBirth) (segments scenarioA_day1)
  /\ sumSleeperBirth (summary scenarioA_day1) = 0.
Proof.
  apply (sleeper_birth_never_occurs scenarioA tripStartA (mkDate 2025 8 7)).
  vm_compute. left. reflexivity.
Defined.

(** ** Running the per-day pass again *)

Lemma chain_whole_raw (l : list Segment) :
  forall x y : Z,
    chain wholeLt (inject_Z x) l (inject_Z y) -> raw_ok x l y.
Proof.
  induction l as [|s l IH]; intros x y H.
  - simpl. exact (chain_whole_le _ _ _ H).
  - simpl in H. destruct H as (Hs & (a & e & Ha & He & Hae) & Hc).
    rewrite He in Hc. rewrite Ha in Hs. apply inject_Z_inj in Hs. subst a.
    simpl. exists x, e.
    split; [exact Ha | split; [exact He | split; [lia |]]].
    apply IH. exact Hc.
Qed.

Lemma fill_fold_complete (l : list Segment) :
  forall acc (x : Z),
    chain wholeLt (inject_Z x) l 24 ->
    fold_left fillStep l (acc, inject_Z x) = (acc ++ l, 24).
Proof.
  induction l as [|s l IH]; intros acc x H; cbn [fold_left].
  - simpl in H. rewrite H, app_nil_r. reflexivity.
  - simpl in H. destruct H as (Hs & (a & e & Ha & He & Hae) & Hc).
    rewrite He in Hc.
    pose proof (chain_whole_le l e 24 Hc) as He24.
    assert (Qlt_bool (inject_Z x) (inject_Z x) = false) as Hf
      by (apply Qlt_bool_false, Qle_refl).
    unfold fillStep at 2. rewrite Hs, He, Math_min_24_whole by exact He24.
    rewrite (Math_max_whole x x) by lia. rewrite Hf.
    rewrite (IH _ _ Hc), <- app_assoc. do 2 f_equal. simpl. f_equal.
    destruct s as [st sh eh]. simpl in Hs, He |- *. now rewrite Hs, He.
Qed.

Lemma fillGaps_complete (l : list Segment) :
  chain wholeLt 0 l 24 -> fillGaps l = l.
Proof.
  intros H. unfold fillGaps.
  change 0 with (inject_Z 0) at 1. rewrite (fill_fold_complete l [] 0%Z H).
  reflexivity.
Qed.

(** X10.  With durations that are not negative, a day of the result is
    left exactly as it is, segments and summary, when the per-day pass
    (sort, fill, merge, summarize) is run on it again. *)
Theorem postProcessDay_again (plannedStops : list Stop) (startDate : Z)
  (key : CalendarDate) (log : DayLog) :
  Forall nonNegative plannedStops ->
  In (key, log) (processTripData plannedStops startDate) ->
  postProcessDay log = log.
Proof.
  intros Hs Hin.
  pose proof (processTripData_whole _ _ _ _ Hs Hin) as Hw.
  apply processTripData_In in Hin. destruct Hin as (raw & _ & ->).
  destruct (postProcessDay_any raw) as [_ Hsep].
  set (merged := segments (postProcessDay raw)) in *.
  assert (summary (postProcessDay raw) = summarize merged) as Hsum
    by reflexivity.
  assert (postProcessDay raw = mkDayLog merged (summarize merged)) as ->
    by reflexivity.
  unfold postProcessDay at 1. cbn [segments].
  rewrite (sortByStart_raw merged 0 24) by (now apply chain_whole_raw).
  rewrite (fillGaps_complete merged Hw).
  replace (mergeSegments merged) with merged; [reflexivity|].
  destruct merged as [|cur rest]; [reflexivity|].
  symmetry. now apply mergeLoop_fixed.
Qed.

Lemma postProcessDay_again_witness :
  postProcessDay scenarioA_day1 = scenarioA_day1.
Proof.
  apply (postProcessDay_again scenarioA tripStartA (mkDate 2025 8 7)).
  - repeat constructor; discriminate.
  - vm_compute. left. reflexivity.
Defined.

(** ** The transition lines of the chart *)

Lemma endLinesFrom_chain (rest : list Segment) :
  forall (s : Segment) (index arr_length : nat) (x y : Z),
    (0 <= x)%Z ->
    chain wholeLt (inject_Z x) (s :: rest) (inject_Z y) ->
    arr_length = (index + S (List.length rest))%nat ->
    endLinesFrom index arr_length (s :: rest) = startLines rest.
Proof.
  induction rest as [|s' rest IH]; intros s index arr_length x y Hx Hc Hlen.
  - cbn [endLinesFrom]. simpl in Hlen.
    replace (index <? arr_length - 1)%nat with false
      by (symmetry; apply Nat.ltb_ge; lia).
    reflexivity.
  - destruct Hc as (Hs & (a & e & Ha & He & Hae) & Hc).
    rewrite He in Hc. rewrite Ha in Hs. apply inject_Z_inj in Hs. subst a.
    change (endLinesFrom index arr_length (s :: s' :: rest))
      with ((if (index <? arr_length - 1)%nat
             then [endHour s * HOUR_WIDTH] else [])
            ++ endLinesFrom (S index) arr_length (s' :: rest)).
    simpl in Hlen.
    replace (index <? arr_length - 1)%nat with true
      by (symmetry; apply Nat.ltb_lt; lia).
    rewrite (IH s' (S index) arr_length e y) by (try exact Hc; simpl; lia).
    unfold startLines. cbn [flat_map].
    destruct Hc as (Hs' & _). rewrite Hs', He.
    replace (Qlt_bool 0 (inject_Z e)) with true; [reflexivity|].
    symmetry. apply Qlt_bool_iff. apply (proj1 (inject_Z_lt 0 e)). lia.
Qed.

Lemma startLines_length (l : list Segment) :
  forall x y : Z,
    (0 < x)%Z -> chain wholeLt (inject_Z x) l (inject_Z y) ->
    List.length (startLines l) = List.length l.
Proof.
  induction l as [|s l IH]; intros x y Hx Hc; [reflexivity|].
  destruct Hc as (Hs & (a & e & Ha & He & Hae) & Hc).
  rewrite He in Hc. rewrite Ha in Hs. apply inject_Z_inj in Hs. subst a.
  unfold startLines. cbn [flat_map]. rewrite Ha.
  replace (Qlt_bool 0 (inject_Z x)) with true
    by (symmetry; apply Qlt_bool_iff;
        apply (proj1 (inject_Z_lt 0 x)); lia).
  simpl. f_equal. apply (IH e y); [lia | exact Hc].
Qed.

(** X12.  With durations that are not negative, the chart of every day
    of the result draws its lines exactly at the status changes: the
    first bar has no start line, every later bar has one, every bar but
    the last has an end line, and the end line of a bar and the start
    line of the next bar have the same [x1]; there is one pair for each
    of the [n - 1] boundaries between the [n] bars. *)
Theorem transition_lines_mark_status_changes (plannedStops : list Stop)
  (startDate : Z) (key : CalendarDate) (log : DayLog) :
  Forall nonNegative plannedStops ->
  In (key, log) (processTripData plannedStops startDate) ->
  startLines (segments log) = endLines (segments log)
  /\ S (List.length (endLines (segments log))) = List.length (segments log)
  /\ alternating (segments log).
Proof.
  intros Hs Hin.
  pose proof (processTripData_whole _ _ _ _ Hs Hin) as Hw.
  assert (alternating (segments log)) as Halt.
  { apply processTripData_In in Hin. destruct Hin as (raw & _ & ->).
    destruct (postProcessDay_any raw) as [Hc Hsep].
    exact (chain_separated_alternating _ _ _ _ Hc Hsep). }
  destruct (segments log) as [|s rest].
  - simpl in Hw. discriminate.
  - assert (endLines (s :: rest) = startLines rest) as He
      by (apply (endLinesFrom_chain rest s 0 _ 0 24);
          [lia | exact Hw | reflexivity]).
    assert (startLines (s :: rest) = startLines rest) as Hstart.
    { destruct Hw as (Hs0 & _). unfold startLines. cbn [flat_map].
      rewrite Hs0. reflexivity. }
    split; [congruence | split; [| exact Halt]].
    rewrite He. simpl. f_equal.
    destruct Hw as (Hs0 & (a & e & Ha & He' & Hae) & Hc).
    rewrite He' in Hc. rewrite Ha in Hs0.
    apply (inject_Z_inj a 0) in Hs0. subst a.
    exact (startLines_length rest e 24 Hae Hc).
Qed.

Lemma transition_lines_mark_status_changes_witness :
  startLines (segments scenarioA_day1) = endLines (segments scenarioA_day1)
  /\ S (List.length (endLines (segments scenarioA_day1)))
     = List.length (segments scenarioA_day1)
  /\ alternating (segments scenarioA_day1).
Proof.
  apply (transition_lines_mark_status_changes scenarioA tripStartA
           (mkDate 2025 8 7)).
  - repeat constructor; discriminate.
  - vm_compute. left. reflexivity.
Defined.

(** ** The markers of the route *)

Lemma markerIconsFrom_length (rest : list Stop) :
  forall index len,
    List.length (markerIconsFrom index len rest) = List.length rest.
Proof.
  induction rest as [|stop rest IH]; intros index len; simpl;
    [reflexivity | now rewrite IH].
Qed.

Lemma markerIconsFrom_last (rest : list Stop) :
  forall (stop : Stop) (index len : nat),
    len = (index + S (List.length rest))%nat -> (2 <= len)%nat ->
    last (markerIconsFrom index len (stop :: rest)) restIcon = dropoffIcon.
Proof.
  induction rest as [|stop' rest IH]; intros stop index len Hlen H2.
  - simpl in Hlen |- *. unfold markerIcon.
    replace (index =? 0)%nat with false
      by (symmetry; apply Nat.eqb_neq; lia).
    replace (index =? len - 1)%nat with true
      by (symmetry; apply Nat.eqb_eq; lia).
    reflexivity.
  - change (markerIconsFrom index len (stop :: stop' :: rest))
      with (markerIcon index len stop
            :: markerIconsFrom (S index) len (stop' :: rest)).
    change (last (markerIcon index len stop
                  :: markerIconsFrom (S index) len (stop' :: rest)) restIcon)
      with (last (markerIconsFrom (S index) len (stop' :: rest)) restIcon).
    apply IH; [simpl in Hlen |- *; lia | exact H2].
Qed.

Lemma markerIconsFrom_nth (rest : list Stop) :
  forall (index len i : nat) (d : Stop),
    (i < List.length rest)%nat ->
    nth i (markerIconsFrom index len rest) restIcon
    = markerIcon (index + i) len (nth i rest d).
Proof.
  induction rest as [|stop rest IH]; intros index len i d Hi;
    [simpl in Hi; lia|].
  destruct i as [|i].
  - simpl. now rewrite Nat.add_0_r.
  - simpl in Hi |- *. rewrite (IH (S index) len i d) by lia.
    f_equal. lia.
Qed.

(** X13.  On a route of two stops or more the first marker shows the
    pickup image and the last one the drop-off image, whatever the types
    of these two stops; a stop strictly between them is drawn after its
    own type: 'start' gets the pickup image, 'end' the drop-off image,
    and any type other than 'start', 'end', Drop-off Stop, Pickup Stop
    and Refueling Stop (a leg of driving as well as a rest) gets the rest
    image.  There is one marker for each stop. *)
Theorem marker_icons_of_a_route (stopsData : list Stop) :
  (2 <= List.length stopsData)%nat ->
  List.length (markerIcons stopsData) = List.length stopsData
  /\ nth 0 (markerIcons stopsData) restIcon = pickupIcon
  /\ last (markerIcons stopsData) restIcon = dropoffIcon
  /\ (forall (i : nat) (d : Stop),
         (0 < i < List.length stopsData - 1)%nat ->
         nth i (markerIcons stopsData) restIcon
         = getCustomIcon (type (nth i stopsData d)))
  /\ (forall label : string,
         label <> "Drop-off Stop"%string -> label <> "Pickup Stop"%string ->
         label <> "Refueling Stop"%string -> label <> "start"%string ->
         label <> "end"%string ->
         getCustomIcon label = restIcon)
  /\ getCustomIcon "start" = pickupIcon
  /\ getCustomIcon "end" = dropoffIcon.
Proof.
  intros H2. unfold markerIcons.
  split; [apply markerIconsFrom_length
         | split; [| split; [| split; [| split; [| split; reflexivity]]]]].
  - destruct stopsData as [|stop rest]; [simpl in H2; lia | reflexivity].
  - destruct stopsData as [|stop rest]; [simpl in H2; lia|].
    apply markerIconsFrom_last; [reflexivity | exact H2].
  - intros i d Hi. rewrite (markerIconsFrom_nth _ _ _ _ d) by lia.
    unfold markerIcon. simpl.
    replace (i =? 0)%nat with false by (symmetry; apply Nat.eqb_neq; lia).
    replace (i =? List.length stopsData - 1)%nat with false
      by (symmetry; apply Nat.eqb_neq; lia).
    reflexivity.
  - intros label H1 H3 H4 H5 H6. unfold getCustomIcon.
    apply String.eqb_neq in H1, H3, H4, H5, H6.
    rewrite H1, H3, H4, H5, H6.
    destruct (String.eqb label "Daily Rest"); reflexivity.
Qed.

Lemma marker_icons_of_a_route_witness :
  List.length (markerIcons testRouteData_planned_stops)
  = List.length testRouteData_planned_stops
  /\ nth 0 (markerIcons testRouteData_planned_stops) restIcon = pickupIcon
  /\ last (markerIcons testRouteData_planned_stops) restIcon = dropoffIcon
  /\ (forall (i : nat) (d : Stop),
         (0 < i < List.length testRouteData_planned_stops - 1)%nat ->
         nth i (markerIcons testRouteData_planned_stops) restIcon
         = getCustomIcon (type (nth i testRouteData_planned_stops d)))
  /\ (forall label : string,
         label <> "Drop-off Stop"%string -> label <> "Pickup Stop"%string ->
         label <> "Refueling Stop"%string -> label <> "start"%string ->
         label <> "end"%string ->
         getCustomIcon label = restIcon)
  /\ getCustomIcon "start" = pickupIcon
  /\ getCustomIcon "end" = dropoffIcon.
Proof.
  apply marker_icons_of_a_route. simpl. lia.
Defined.

(** X14.  With durations that are not negative, the expander leaves the
    segments of each day on whole hours, each of positive length and
    starting no earlier than the one before it ended, so the sort that
    opens the per-day pass returns them unchanged. *)
Theorem expander_days_are_ordered (plannedStops : list Stop) (startDate : Z)
  (key : CalendarDate) (raw : DayLog) :
  Forall nonNegative plannedStops ->
  In (key, raw) (fst (expandTrip plannedStops startDate)) ->
  (exists hi : Z, raw_ok 0 (segments raw) hi)
  /\ sortByStart (segments raw) = segments raw.
Proof.
  intros Hs Hin.
  pose proof (expandTrip_raw plannedStops startDate Hs) as H.
  rewrite Forall_forall in H. specialize (H _ Hin). cbn [snd] in H.
  split.
  - exists 24%Z. exact H.
  - exact (sortByStart_raw _ _ _ H).
Qed.

Lemma expander_days_are_ordered_witness :
  (exists hi : Z,
      raw_ok 0 [ mkSegment Driving 8 19; mkSegment OffDuty 19 24 ] hi)
  /\ sortByStart [ mkSegment Driving 8 19; mkSegment OffDuty 19 24 ]
     = [ mkSegment Driving 8 19; mkSegment OffDuty 19 24 ].
Proof.
  apply (expander_days_are_ordered scenarioA tripStartA (mkDate 2025 8 7)
           (mkDayLog [ mkSegment Driving 8 19; mkSegment OffDuty 19 24 ]
              emptySummary)).
  - repeat constructor; discriminate.
  - vm_compute. left. reflexivity.
Defined.
